(** * monitord: the monitoring service, its reconciliation and its shutdown

    A shallow embedding of [internal/monitor/service.go],
    [internal/monitor/types.go], [internal/monitor/shutdown.go] and of the
    configuration types of [internal/config/config.go].

    Go values are modelled as follows.
    - [int], [int64], [time.Duration] and [time.Time] are integers ([Z]);
      a field that is never assigned keeps Go's zero value ([0], or the
      empty string): this is what "unset" means for a Go struct field.
    - [error] values are modelled by their [Error()] text; [nil] is [None].
    - [map[string]*EndpointMonitor] is a [gmap] from URL to a pointer, and
      pointers are indices in a heap of monitors, so that the aliasing
      between [s.endpoints], [newEndpoints] and the polling goroutine is
      kept.
    - a [context.Context] is an index in a table of cancellation scopes.
    - [go f(...)] appends a goroutine descriptor to the service's list of
      goroutines; the body of each [for { select ... }] loop is a function
      from the case that fired to the next state.
    - what the outside world answers (the HTTP response, the clock, the
      result of [SaveCheck], the result of [onReload]) is an argument. *)

From stdpp Require Import gmap strings list fin_maps.

Local Open Scope Z_scope.

(** ** Package [config] *)

Module config.

(** [type Duration time.Duration], an [int64] count of nanoseconds. *)
Abbreviation Duration := Z.

Record Endpoint := {
  Name : string;
  URL : string;
  Interval : Duration;
  Timeout : Duration;
  Description : string;
  Tags : list string;
  Enabled : bool
}.

Record MonitorConfig := {
  Endpoints : list Endpoint;
  ConfigCheck : Duration
}.

Record DatabaseConfig := { DatabasePath : string }.
Record LogConfig := { LogPath : string; Level : string }.

Record Config := {
  Database : DatabaseConfig;
  Monitor : MonitorConfig;
  Logging : LogConfig
}.

Definition ToDuration (d : Duration) : Z := d.

End config.

(** ** Package [context]: cancellation scopes *)

Module context.

(** A context is named by its index in the table of scopes. *)
Abbreviation Context := nat.

(** One scope: the chain of scopes it was derived from (nearest first)
    and whether its own [cancel] function has been called. *)
Record scope := {
  ancestors : list Context;
  cancelled : bool
}.

Abbreviation table := (list scope).

(** [context.Background()]: the scope at index 0, which has no cancel
    function. *)
Definition Background : Context := 0%nat.

Definition background_scope : scope :=
  {| ancestors := []; cancelled := false |}.

Definition flag (t : table) (c : Context) : bool :=
  match t !! c with
  | Some sc => cancelled sc
  | None => false
  end.

Definition ancestors_of (t : table) (c : Context) : list Context :=
  match t !! c with
  | Some sc => ancestors sc
  | None => []
  end.

(** [<-ctx.Done()] is ready: the scope or one of the scopes it derives
    from has been cancelled. *)
Definition Done (t : table) (c : Context) : bool :=
  flag t c || existsb (flag t) (ancestors_of t c).

(** [context.WithCancel(parent)]: a new child scope; the returned cancel
    function is represented by the child's index. *)
Definition WithCancel (t : table) (parent : Context) : Context * table :=
  let c := length t in
  (c, t ++ [ {| ancestors := parent :: ancestors_of t parent;
                cancelled := false |} ]).

Definition set_cancelled (sc : scope) : scope :=
  {| ancestors := ancestors sc; cancelled := true |}.

(** Calling the cancel function of scope [c]. *)
Definition cancel (t : table) (c : Context) : table :=
  alter set_cancelled c t.

End context.

(** ** Package [monitor] *)

Module monitor.

(** [types.go] *)

Record HealthCheck := {
  Name : string;
  URL : string;
  Status : string;
  StatusCode : Z;
  ResponseTime : Z;
  Timestamp : Z;
  Error : string;
  Tags : list string
}.

Abbreviation ptr := nat.

Record EndpointMonitor := {
  endpoint : config.Endpoint;
  cancel : context.Context;
  lastCheck : Z
}.

(** The goroutines the service launches with [go]. *)
Inductive goroutine :=
| go_monitorEndpoint (ctx : context.Context) (monitor : ptr)
| go_watchConfig (ctx : context.Context).

(** The lines written through [s.logger]; each constructor is one
    [Printf] of [service.go] with its arguments. *)
Inductive log_line :=
| log_starting_check (url : string)
| log_error_checking (url err : string)
| log_check_successful (url status : string) (ms : Z)
| log_check_degraded (url status : string) (code ms : Z)
| log_stopping (url : string)
| log_error_saving (url err : string)
| log_error_reloading (err : string)
| log_reloading
| log_updating (url : string)
| log_adding (url : string)
| log_removing (url : string).

(** The [Service] struct, together with the run-time state its methods
    act on: the heap of monitors, the table of cancellation scopes, the
    goroutines that have not returned, the lines logged, and the calls
    made to [storage.SaveCheck] (each check with the error it
    returned). The mutex [mu] is not a field: each section
    of code that runs with [mu] held is one function of the model. *)
Record Service := {
  config : config.MonitorConfig;
  endpoints : gmap string ptr;
  shutdownWg : Z;
  heap : list EndpointMonitor;
  scopes : context.table;
  goroutines : list goroutine;
  logger : list log_line;
  storage : list (HealthCheck * option string)
}.

Definition set_config (c : config.MonitorConfig) (s : Service) : Service :=
  {| config := c; endpoints := endpoints s; shutdownWg := shutdownWg s;
     heap := heap s; scopes := scopes s; goroutines := goroutines s;
     logger := logger s; storage := storage s |}.

Definition set_endpoints (m : gmap string ptr) (s : Service) : Service :=
  {| config := config s; endpoints := m; shutdownWg := shutdownWg s;
     heap := heap s; scopes := scopes s; goroutines := goroutines s;
     logger := logger s; storage := storage s |}.

Definition set_shutdownWg (n : Z) (s : Service) : Service :=
  {| config := config s; endpoints := endpoints s; shutdownWg := n;
     heap := heap s; scopes := scopes s; goroutines := goroutines s;
     logger := logger s; storage := storage s |}.

Definition set_heap (h : list EndpointMonitor) (s : Service) : Service :=
  {| config := config s; endpoints := endpoints s;
     shutdownWg := shutdownWg s; heap := h; scopes := scopes s;
     goroutines := goroutines s; logger := logger s;
     storage := storage s |}.

Definition set_scopes (t : context.table) (s : Service) : Service :=
  {| config := config s; endpoints := endpoints s;
     shutdownWg := shutdownWg s; heap := heap s; scopes := t;
     goroutines := goroutines s; logger := logger s;
     storage := storage s |}.

Definition set_goroutines (g : list goroutine) (s : Service) : Service :=
  {| config := config s; endpoints := endpoints s;
     shutdownWg := shutdownWg s; heap := heap s; scopes := scopes s;
     goroutines := g; logger := logger s; storage := storage s |}.

Definition set_storage (l : list (HealthCheck * option string))
    (s : Service) : Service :=
  {| config := config s; endpoints := endpoints s;
     shutdownWg := shutdownWg s; heap := heap s; scopes := scopes s;
     goroutines := goroutines s; logger := logger s; storage := l |}.

(** [s.logger.Printf(...)] *)
Definition Printf (l : log_line) (s : Service) : Service :=
  {| config := config s; endpoints := endpoints s;
     shutdownWg := shutdownWg s; heap := heap s; scopes := scopes s;
     goroutines := goroutines s; logger := logger s ++ [l];
     storage := storage s |}.

(** [go f(...)] *)
Definition go (g : goroutine) (s : Service) : Service :=
  set_goroutines (goroutines s ++ [g]) s.

(** [s.shutdownWg.Add(delta)] and [s.shutdownWg.Done()] *)
Definition wg_Add (delta : Z) (s : Service) : Service :=
  set_shutdownWg (shutdownWg s + delta) s.
Definition wg_Done (s : Service) : Service := wg_Add (-1) s.

(** [monitor.cancel()] for the monitor at [p]. *)
Definition call_cancel (p : ptr) (s : Service) : Service :=
  match heap s !! p with
  | Some m => set_scopes (context.cancel (scopes s) (cancel m)) s
  | None => s
  end.

(** [NewService]: the scope table is the caller's. *)
Definition NewService (cfg : config.MonitorConfig) (t : context.table)
  : Service :=
  {| config := cfg; endpoints := ∅; shutdownWg := 0; heap := [];
     scopes := t; goroutines := []; logger := []; storage := [] |}.

(** *** [performHealthCheck] *)

(** What [client.Get] returns. Go's [net/http] documents that any error
    returned by [Client.Get] is a [*url.Error]; its [Error()] method is
    [fmt.Sprintf("%s %q: %s", e.Op, e.URL, e.Err)]. *)
Record url_Error := { Op : string; ErrURL : string; Err : string }.

Inductive get_result :=
| get_err (e : url_Error)
| get_resp (code : Z).

Section probe.

(** Go's [%q] verb on a string ([strconv.Quote]). *)
Variable strconv_Quote : string → string.

Definition url_Error_Error (e : url_Error) : string :=
  (Op e +:+ " " +:+ strconv_Quote (ErrURL e) +:+ ": " +:+ Err e)%string.

(** [http.StatusOK] *)
Definition StatusOK : Z := 200.

(** [time.Duration.Milliseconds]: integer division of the nanosecond
    count, truncated toward zero. *)
Definition Milliseconds (d : Z) : Z := Z.quot d 1000000.

(** [start] is what [time.Now()] returns, [get] what [client.Get]
    returns and [since] what [time.Since(start)] returns after the
    response. *)
Definition performHealthCheck (start : Z) (get : get_result) (since : Z)
    (endpoint : config.Endpoint) (s : Service) : Service * HealthCheck :=
  let s := Printf (log_starting_check (config.URL endpoint)) s in
  let check :=
    {| Name := config.Name endpoint; URL := config.URL endpoint;
       Status := ""; StatusCode := 0; ResponseTime := 0;
       Timestamp := start; Error := "";
       Tags := config.Tags endpoint |} in
  match get with
  | get_err err =>
      let s := Printf (log_error_checking (config.URL endpoint)
                         (url_Error_Error err)) s in
      (s, {| Name := Name check; URL := URL check; Status := "ERROR";
             StatusCode := StatusCode check;
             ResponseTime := ResponseTime check;
             Timestamp := Timestamp check;
             Error := url_Error_Error err; Tags := Tags check |})
  | get_resp code =>
      let duration := Milliseconds since in
      if code =? StatusOK then
        (Printf (log_check_successful (config.URL endpoint) "UP"
                   duration) s,
         {| Name := Name check; URL := URL check; Status := "UP";
            StatusCode := code; ResponseTime := duration;
            Timestamp := Timestamp check; Error := Error check;
            Tags := Tags check |})
      else
        (Printf (log_check_degraded (config.URL endpoint) "DEGRADED"
                   code duration) s,
         {| Name := Name check; URL := URL check; Status := "DEGRADED";
            StatusCode := code; ResponseTime := duration;
            Timestamp := Timestamp check; Error := Error check;
            Tags := Tags check |})
  end.

End probe.

(** *** [endpointConfigEqual] and [sliceEqual] *)

Fixpoint sliceEqual_loop (a b : list string) : bool :=
  match a, b with
  | x :: a', y :: b' =>
      if negb (String.eqb x y) then false else sliceEqual_loop a' b'
  | _, _ => true
  end.

Definition sliceEqual (a b : list string) : bool :=
  if negb (length a =? length b)%nat then false else sliceEqual_loop a b.

Definition endpointConfigEqual (a b : config.Endpoint) : bool :=
  String.eqb (config.URL a) (config.URL b) &&
  (config.Interval a =? config.Interval b) &&
  (config.Timeout a =? config.Timeout b) &&
  String.eqb (config.Name a) (config.Name b) &&
  sliceEqual (config.Tags a) (config.Tags b).

(** *** [startEndpoint] and [Start] *)

Definition startEndpoint (ctx : context.Context)
    (endpoint : config.Endpoint) (s : Service) : Service * option string :=
  let '(endpointCtx, t) := context.WithCancel (scopes s) ctx in
  let s := set_scopes t s in
  let monitor := length (heap s) in
  let s := set_heap (heap s ++ [ {| endpoint := endpoint;
                                    cancel := endpointCtx;
                                    lastCheck := 0 |} ]) s in
  let s := set_endpoints (<[config.URL endpoint := monitor]> (endpoints s))
             s in
  let s := wg_Add 1 s in
  let s := go (go_monitorEndpoint endpointCtx monitor) s in
  (s, None).

(** The [for _, endpoint := range s.config.Endpoints] loop of [Start]. *)
Fixpoint Start_range (ctx : context.Context) (l : list config.Endpoint)
    (s : Service) : Service * option string :=
  match l with
  | [] => (s, None)
  | endpoint :: l =>
      if negb (config.Enabled endpoint) then Start_range ctx l s
      else
        match startEndpoint ctx endpoint s with
        | (s, Some err) =>
            (s, Some ("failed to start endpoint " +:+ config.URL endpoint
                        +:+ ": " +:+ err)%string)
        | (s, None) => Start_range ctx l s
        end
  end.

Definition Start (ctx : context.Context) (s : Service)
  : Service * option string :=
  match Start_range ctx (config.Endpoints (config s)) s with
  | (s, Some err) => (s, Some err)
  | (s, None) =>
      let s := wg_Add 1 s in
      let s := go (go_watchConfig ctx) s in
      (s, None)
  end.

(** *** [reloadConfig] *)

(** The body of the loop over [cfg.Monitor.Endpoints]; the state of the
    loop is the service and [newEndpoints]. *)
Definition reload_endpoint (endpoint : config.Endpoint)
    (st : Service * gmap string ptr)
  : Service * gmap string ptr * option string :=
  let '(s, newEndpoints) := st in
  if negb (config.Enabled endpoint) then (s, newEndpoints, None)
  else
    match endpoints s !! config.URL endpoint with
    | Some monitor =>
        let changed :=
          match heap s !! monitor with
          | Some m => negb (endpointConfigEqual (monitor.endpoint m) endpoint)
          | None => false
          end in
        if changed then
          let s := Printf (log_updating (config.URL endpoint)) s in
          let s := call_cancel monitor s in
          match startEndpoint context.Background endpoint s with
          | (s, Some err) =>
              (s, newEndpoints,
               Some ("failed to restart endpoint " +:+ config.URL endpoint
                       +:+ ": " +:+ err)%string)
          | (s, None) =>
              match endpoints s !! config.URL endpoint with
              | Some p => (s, <[config.URL endpoint := p]> newEndpoints, None)
              | None => (s, newEndpoints, None)
              end
          end
        else (s, <[config.URL endpoint := monitor]> newEndpoints, None)
    | None =>
        let s := Printf (log_adding (config.URL endpoint)) s in
        match startEndpoint context.Background endpoint s with
        | (s, Some err) =>
            (s, newEndpoints,
             Some ("failed to start new endpoint " +:+ config.URL endpoint
                     +:+ ": " +:+ err)%string)
        | (s, None) =>
            match endpoints s !! config.URL endpoint with
            | Some p => (s, <[config.URL endpoint := p]> newEndpoints, None)
            | None => (s, newEndpoints, None)
            end
        end
    end.

Fixpoint reload_range (l : list config.Endpoint)
    (st : Service * gmap string ptr)
  : Service * gmap string ptr * option string :=
  match l with
  | [] => (st, None)
  | endpoint :: l =>
      match reload_endpoint endpoint st with
      | (s, newEndpoints, Some err) => (s, newEndpoints, Some err)
      | (s, newEndpoints, None) => reload_range l (s, newEndpoints)
      end
  end.

(** The loop [for url, monitor := range s.endpoints] that stops the
    monitors absent from [newEndpoints]. Go visits a map in an
    unspecified order; the model visits [map_to_list]. *)
Definition reload_remove (newEndpoints : gmap string ptr)
    (entry : string * ptr) (s : Service) : Service :=
  match newEndpoints !! entry.1 with
  | Some _ => s
  | None => call_cancel entry.2 (Printf (log_removing entry.1) s)
  end.

(** [onReload] is what [s.onReload()] returns: a configuration or an
    error. *)
Definition reloadConfig (onReload : config.Config + string) (s : Service)
  : Service * option string :=
  let s := Printf log_reloading s in
  match onReload with
  | inr err => (s, Some ("failed to reload config: " +:+ err)%string)
  | inl cfg =>
      match reload_range (config.Endpoints (config.Monitor cfg)) (s, ∅) with
      | (s, _, Some err) => (s, Some err)
      | (s, newEndpoints, None) =>
          let s := foldr (reload_remove newEndpoints) s
                     (map_to_list (endpoints s)) in
          let s := set_endpoints newEndpoints s in
          let s := set_config (config.Monitor cfg) s in
          (s, None)
      end
  end.

(** *** The loops of [monitorEndpoint] and [watchConfig] *)

Inductive loop_result := loop_continue | loop_return.

(** The case of [monitorEndpoint]'s [select] that fires. With a tick
    come the answers of the outside world: the clock at the start of the
    probe, the result of [client.Get], the time elapsed at the response
    and the result of [SaveCheck]. *)
Inductive monitor_case :=
| monitor_ctx_Done
| monitor_ticker_C (start : Z) (get : get_result) (since : Z)
    (save : option string).

Section loops.

Variable strconv_Quote : string → string.

(** One iteration of the [for { select ... }] of [monitorEndpoint].
    [None]: the case is not ready. The ticker was created from the
    monitor's interval before the loop; on [return] the deferred
    [s.shutdownWg.Done()] runs. *)
Definition monitorEndpoint_select (ctx : context.Context) (monitor : ptr)
    (c : monitor_case) (s : Service) : option (Service * loop_result) :=
  match heap s !! monitor with
  | None => None
  | Some m =>
      match c with
      | monitor_ctx_Done =>
          if context.Done (scopes s) ctx then
            let s := Printf (log_stopping (config.URL (endpoint m))) s in
            Some (wg_Done s, loop_return)
          else None
      | monitor_ticker_C start get since save =>
          let '(s, check) :=
            performHealthCheck strconv_Quote start get since
              (endpoint m) s in
          let s := set_storage (storage s ++ [(check, save)]) s in
          let s :=
            match save with
            | Some err =>
                Printf (log_error_saving (config.URL (endpoint m)) err) s
            | None => s
            end in
          let s :=
            set_heap (<[monitor := {| endpoint := endpoint m;
                                      cancel := cancel m;
                                      lastCheck := Timestamp check |}]>
                        (heap s)) s in
          Some (s, loop_continue)
      end
  end.

Inductive watch_case :=
| watch_ctx_Done
| watch_ticker_C (onReload : config.Config + string).

(** One iteration of the [for { select ... }] of [watchConfig]. *)
Definition watchConfig_select (ctx : context.Context) (c : watch_case)
    (s : Service) : option (Service * loop_result) :=
  match c with
  | watch_ctx_Done =>
      if context.Done (scopes s) ctx then Some (wg_Done s, loop_return)
      else None
  | watch_ticker_C onReload =>
      match reloadConfig onReload s with
      | (s, Some err) =>
          Some (Printf (log_error_reloading err) s, loop_continue)
      | (s, None) => Some (s, loop_continue)
      end
  end.

(** A goroutine of the service takes one turn of its loop: [i] is its
    position among the goroutines and [e] the case that fires. A
    goroutine that returns leaves the list. *)
Inductive event :=
| ev_monitor (c : monitor_case)
| ev_watch (c : watch_case).

Definition run (i : nat) (e : event) (s : Service) : option Service :=
  match goroutines s !! i, e with
  | Some (go_monitorEndpoint ctx monitor), ev_monitor c =>
      match monitorEndpoint_select ctx monitor c s with
      | Some (s, loop_continue) => Some s
      | Some (s, loop_return) =>
          Some (set_goroutines (delete i (goroutines s)) s)
      | None => None
      end
  | Some (go_watchConfig ctx), ev_watch c =>
      match watchConfig_select ctx c s with
      | Some (s, loop_continue) => Some s
      | Some (s, loop_return) =>
          Some (set_goroutines (delete i (goroutines s)) s)
      | None => None
      end
  | _, _ => None
  end.

End loops.

(** *** [Shutdown] *)

(** The section of [Shutdown] that runs with [mu] held: the loop
    [for _, monitor := range s.endpoints { monitor.cancel() }]. *)
Definition Shutdown_cancel (s : Service) : Service :=
  foldr (λ entry s, call_cancel entry.2 s) s (map_to_list (endpoints s)).

(** After [mu] is released: the helper goroutine closes [done] once
    [s.shutdownWg.Wait()] returns, that is, once the counter is zero. *)
Definition Shutdown_Wait (s : Service) (done : bool) : bool :=
  done || (shutdownWg s =? 0).

Inductive Shutdown_case := case_done | case_ctx_Done.
Inductive Shutdown_result := return_nil | return_ctx_Err.

(** The final [select] of [Shutdown]; [None]: the case is not ready. *)
Definition Shutdown_select (ctx : context.Context) (c : Shutdown_case)
    (done : bool) (s : Service) : option Shutdown_result :=
  match c with
  | case_done => if done then Some return_nil else None
  | case_ctx_Done =>
      if context.Done (scopes s) ctx then Some return_ctx_Err else None
  end.

(** *** [shutdown.go]: [ShutdownManager] *)

Record ShutdownManager := { wg : Z; timeout : Z }.

Definition NewShutdownManager : ShutdownManager :=
  {| wg := 0; timeout := 5 * 1000000000 |}.

Definition Add (delta : Z) (sm : ShutdownManager) : ShutdownManager :=
  {| wg := wg sm + delta; timeout := timeout sm |}.

Definition Done (sm : ShutdownManager) : ShutdownManager := Add (-1) sm.

(** What happens while [Shutdown] is blocked in its [select]: a worker
    calls [Done], or the timer of [time.After(sm.timeout)] fires. *)
Inductive drain_event := worker_Done | timer_fires.

(** [ShutdownManager.Shutdown] run against the events that follow the
    call, in the order in which they happen. The helper goroutine
    closes [done] as soon as [sm.wg.Wait()] returns, that is, when the
    counter is zero, and the [select] then returns [true]; it returns
    [false] when the timer fires first. [None]: still blocked when the
    events are exhausted. The result is paired with the manager, whose
    counter only the workers' [Done] calls have changed. *)
Fixpoint Shutdown_run (sm : ShutdownManager) (evs : list drain_event)
  : option (bool * ShutdownManager) :=
  if wg sm =? 0 then Some (true, sm)
  else
    match evs with
    | [] => None
    | worker_Done :: evs => Shutdown_run (Done sm) evs
    | timer_fires :: _ => Some (false, sm)
    end.

End monitor.

Import monitor.

(** * Definitions used by the statements *)

(** Example values, used to run the model on concrete inputs. *)

Definition example_endpoint (name url description : string) (interval : Z)
  : config.Endpoint :=
  {| config.Name := name; config.URL := url; config.Interval := interval;
     config.Timeout := 10000000000; config.Description := description;
     config.Tags := ["production"]; config.Enabled := true |}.

Definition example_monitor_config (l : list config.Endpoint)
  : config.MonitorConfig :=
  {| config.Endpoints := l; config.ConfigCheck := 180000000000 |}.

Definition example_config (l : list config.Endpoint) : config.Config :=
  {| config.Database := {| config.DatabasePath := "monitord.db" |};
     config.Monitor := example_monitor_config l;
     config.Logging := {| config.LogPath := "monitord.log";
                          config.Level := "info" |} |}.

(** The scopes of [main]: the background scope and, at index 1, the scope
    [ctx] that [main] derives from it and passes to [Start]. *)
Definition main_scopes : context.table :=
  (context.WithCancel [context.background_scope] context.Background).2.

Definition main_ctx : context.Context := 1%nat.

(** The URLs of the enabled endpoints of a configuration. *)
Definition enabled_urls (cfg : config.MonitorConfig) : gset string :=
  list_to_set (config.URL <$>
                 filter (λ e, config.Enabled e = true) (config.Endpoints cfg)).

(** Goroutine [g] is a polling loop bound to the monitor at [p] whose
    [ctx.Done()] is not ready: it will probe again at its next tick. *)
Definition live_loop (s : Service) (p : ptr) (g : goroutine) : bool :=
  match g with
  | go_monitorEndpoint ctx monitor =>
      bool_decide (monitor = p) && negb (context.Done (scopes s) ctx)
  | go_watchConfig _ => false
  end.

Definition live_loops (s : Service) (p : ptr) : nat :=
  length (filter (λ g, live_loop s p g = true) (goroutines s)).

(** The monitors that the polling goroutines are bound to. *)
Definition monitor_ptrs (gs : list goroutine) : list ptr :=
  omap (λ g, match g with
             | go_monitorEndpoint _ monitor => Some monitor
             | go_watchConfig _ => None
             end) gs.

(** What [Start] needs of the caller's scopes: the background scope and
    the root scope exist and are not cancelled, and every scope derives
    from scopes of the table. *)
Definition closed_table (t : context.table) : bool :=
  forallb (λ sc, forallb (λ a, a <? length t)%nat (context.ancestors sc)) t.

Definition usable_root (t : context.table) (root : context.Context) : bool :=
  (root <? length t)%nat && (context.Background <? length t)%nat &&
  negb (context.Done t root) && negb (context.Done t context.Background) &&
  closed_table t.

(** A scope from which a monitor's scope can be derived. *)
Definition usable_parent (t : context.table) (parent : context.Context)
  : Prop :=
  (parent < length t)%nat ∧ context.Done t parent = false ∧
  Forall (λ a, (a < length t)%nat) (context.ancestors_of t parent).

(** The shape of the state that the service keeps: [t] is the caller's
    table of scopes, at the head of the service's; each monitor has its
    own scope, allocated with it; each polling goroutine is bound to an
    allocated monitor and its scope, and no two to the same monitor. *)
Record well_formed (t : context.table) (s : Service) : Prop := {
  wf_scopes_length : length (scopes s) = (length t + length (heap s))%nat;
  wf_prefix : ∀ c, (c < length t)%nat → scopes s !! c = t !! c;
  wf_cancel : ∀ p m, heap s !! p = Some m → cancel m = (length t + p)%nat;
  wf_ancestors : ∀ p m, heap s !! p = Some m →
    existsb (context.flag t) (context.ancestors_of (scopes s) (cancel m))
      = false ∧
    Forall (λ a, (a < length t)%nat)
      (context.ancestors_of (scopes s) (cancel m));
  wf_goroutines : ∀ c p, go_monitorEndpoint c p ∈ goroutines s →
    (p < length (heap s))%nat ∧ c = (length t + p)%nat;
  wf_NoDup : NoDup (monitor_ptrs (goroutines s))
}.

(** The entry [u ↦ p] of the map is served: the monitor at [p] is for
    [u], its scope is not cancelled and its polling loop is running. *)
Definition served (s : Service) (u : string) (p : ptr) : Prop :=
  ∃ m, heap s !! p = Some m ∧ config.URL (endpoint m) = u ∧
       context.flag (scopes s) (cancel m) = false ∧
       go_monitorEndpoint (cancel m) p ∈ goroutines s.

Definition all_served (s : Service) : Prop :=
  ∀ u p, endpoints s !! u = Some p → served s u p.

(** The three facts that [Start] establishes and every turn of a
    goroutine keeps. *)
Definition steady (t : context.table) (s : Service) : Prop :=
  well_formed t s ∧ all_served s ∧
  dom (endpoints s) = enabled_urls (config s).

(** The states of a service that was created over the table [t], started
    with the scope [root], and whose goroutines have since taken any
    number of turns (ticks of the polling loops, reconciliations by the
    watch loop, returns of cancelled loops). *)
Inductive reachable (quote : string → string) (t : context.table)
    (root : context.Context) : Service → Prop :=
| reachable_Start (cfg : config.MonitorConfig) :
    reachable quote t root (Start root (NewService cfg t)).1
| reachable_run (s s' : Service) (i : nat) (e : event) :
    reachable quote t root s → run quote i e s = Some s' →
    reachable quote t root s'.

(** The service of [main] with one endpoint, after [Start]. *)
Definition started_one : Service :=
  (Start main_ctx
     (NewService (example_monitor_config [example_endpoint "A" "u" "" 60])
        main_scopes)).1.

(** A configuration in which two enabled endpoints share a URL, and the
    service started with it. *)
Definition shared_url_config : list config.Endpoint :=
  [example_endpoint "A" "u" "" 60; example_endpoint "B" "u" "" 60].

Definition started_shared_url : Service :=
  (Start main_ctx
     (NewService (example_monitor_config shared_url_config) main_scopes)).1.

(** [startEndpoint parent e] has run between [s] and [s']: one scope
    derived from [parent], one monitor for [e], one polling goroutine and
    one unit of the worker counter have been added, and the map sends the
    URL of [e] to the new monitor. *)
Definition started (parent : context.Context) (e : config.Endpoint)
    (s s' : Service) : Prop :=
  scopes s' = scopes s ++
    [ {| context.ancestors := parent :: context.ancestors_of (scopes s) parent;
         context.cancelled := false |} ] ∧
  heap s' = heap s ++
    [ {| endpoint := e; cancel := length (scopes s); lastCheck := 0 |} ] ∧
  endpoints s' = <[config.URL e := length (heap s)]> (endpoints s) ∧
  goroutines s' = goroutines s ++
    [go_monitorEndpoint (length (scopes s)) (length (heap s))] ∧
  shutdownWg s' = shutdownWg s + 1 ∧ config s' = config s ∧
  storage s' = storage s.

(** The fields that [endpointConfigEqual] compares are the same. *)
Definition same_compared_fields (a b : config.Endpoint) : Prop :=
  config.URL a = config.URL b ∧ config.Interval a = config.Interval b ∧
  config.Timeout a = config.Timeout b ∧ config.Name a = config.Name b ∧
  config.Tags a = config.Tags b.

Global Instance same_compared_fields_dec (a b : config.Endpoint) :
  Decision (same_compared_fields a b).
Proof. unfold same_compared_fields. apply _. Defined.

(** The service of [main] after [Start] with one endpoint and a
    reconciliation that adds a second endpoint. *)
Definition reconciled_two : Service :=
  (reloadConfig
     (inl (example_config [example_endpoint "A" "u" "" 60;
                           example_endpoint "B" "v" "" 60]))
     started_one).1.

(** The enabled endpoints of a configuration have pairwise distinct
    URLs. *)
Definition distinct_urls (cfg : config.MonitorConfig) : Prop :=
  NoDup (config.URL <$>
           filter (λ e, config.Enabled e = true) (config.Endpoints cfg)).

(** The map [m] sends the URL of [e] to a monitor whose snapshot agrees
    with [e] on the compared fields. *)
Definition agrees (m : gmap string ptr) (h : list EndpointMonitor)
    (e : config.Endpoint) : Prop :=
  ∃ p mon, m !! config.URL e = Some p ∧ h !! p = Some mon ∧
           endpointConfigEqual (endpoint mon) e = true.

Definition config_agrees (s : Service) : Prop :=
  distinct_urls (config s) →
  ∀ e, e ∈ config.Endpoints (config s) → config.Enabled e = true →
       agrees (endpoints s) (heap s) e.

(** * Properties *)

(** ** Probing *)

Lemma url_Error_Error_nonempty (quote : string → string) (e : url_Error) :
  url_Error_Error quote e ≠ "".
Proof.
  unfold url_Error_Error. destruct (Op e); simpl; discriminate.
Qed.

Lemma sliceEqual_loop_spec (a b : list string) :
  length a = length b → sliceEqual_loop a b = true ↔ a = b.
Proof.
  revert b. induction a as [|x a IH]; intros [|y b] Hlen; simpl in *;
    try discriminate; [tauto|].
  destruct (String.eqb_spec x y) as [->|Hne]; simpl.
  - rewrite IH by congruence. split; congruence.
  - split; [discriminate|congruence].
Qed.

Lemma sliceEqual_spec (a b : list string) : sliceEqual a b = true ↔ a = b.
Proof.
  unfold sliceEqual. destruct (Nat.eqb_spec (length a) (length b)) as [E|E];
    simpl.
  - by apply sliceEqual_loop_spec.
  - split; [discriminate|]. intros ->. done.
Qed.

(** [endpointConfigEqual] holds exactly when the five compared fields
    agree; [Description] and [Enabled] are not looked at. *)
Lemma endpointConfigEqual_spec (a b : config.Endpoint) :
  endpointConfigEqual a b = true ↔
    config.URL a = config.URL b ∧ config.Interval a = config.Interval b ∧
    config.Timeout a = config.Timeout b ∧ config.Name a = config.Name b ∧
    config.Tags a = config.Tags b.
Proof.
  unfold endpointConfigEqual.
  rewrite !andb_true_iff, !String.eqb_eq, !Z.eqb_eq, sliceEqual_spec. tauto.
Qed.

Lemma performHealthCheck_Timestamp (quote : string → string) (start : Z)
    (get : get_result) (since : Z) (e : config.Endpoint) (s : Service) :
  Timestamp (performHealthCheck quote start get since e s).2 = start.
Proof.
  unfold performHealthCheck. destruct get as [err|code]; [done|].
  by destruct (code =? StatusOK).
Qed.

(** C1. [performHealthCheck] classifies the one probe result by cases, in
    the order of the code. A failed request gives status ERROR, an error
    message that is the cause's description and is not empty, and leaves
    the status code and the response time at their zero value. A response
    with code 200 gives status UP, code 200 and the elapsed milliseconds;
    a response with any other code gives status DEGRADED, that code and
    the elapsed milliseconds. In all cases the name, URL and tags are the
    endpoint's and the timestamp is the start of the probe. *)
Theorem performHealthCheck_classifies (quote : string → string)
    (start : Z) (get : get_result) (since : Z) (endpoint : config.Endpoint)
    (s : Service) :
  let check := (performHealthCheck quote start get since endpoint s).2 in
  (Name check = config.Name endpoint ∧ URL check = config.URL endpoint ∧
   Tags check = config.Tags endpoint ∧ Timestamp check = start) ∧
  match get with
  | get_err e =>
      Status check = "ERROR" ∧ Error check = url_Error_Error quote e ∧
      Error check ≠ "" ∧ StatusCode check = 0 ∧ ResponseTime check = 0
  | get_resp code =>
      if decide (code = 200) then
        Status check = "UP" ∧ StatusCode check = 200 ∧
        ResponseTime check = Milliseconds since ∧ Error check = ""
      else
        Status check = "DEGRADED" ∧ StatusCode check = code ∧
        ResponseTime check = Milliseconds since ∧ Error check = ""
  end.
Proof.
  unfold performHealthCheck. destruct get as [e|code]; simpl.
  - repeat split; try done. apply url_Error_Error_nonempty.
  - unfold StatusOK. destruct (Z.eqb_spec code 200) as [->|Hne]; simpl.
    + done.
    + destruct (decide (code = 200)); [done|]. done.
Qed.

(** ** [startEndpoint] returns no error *)

Lemma startEndpoint_nil (ctx : context.Context) (endpoint : config.Endpoint)
    (s : Service) :
  (startEndpoint ctx endpoint s).2 = None.
Proof. done. Qed.

Lemma Start_range_nil (ctx : context.Context) (l : list config.Endpoint)
    (s : Service) :
  (Start_range ctx l s).2 = None.
Proof.
  revert s. induction l as [|e l IH]; intros s; simpl; [done|].
  destruct (config.Enabled e); simpl; apply IH.
Qed.

Lemma reload_endpoint_nil (e : config.Endpoint)
    (st : Service * gmap string ptr) :
  (reload_endpoint e st).2 = None.
Proof.
  destruct st as [s new]. unfold reload_endpoint.
  destruct (config.Enabled e); simpl; [|done].
  destruct (endpoints s !! config.URL e) as [p|]; simpl.
  - destruct (match heap s !! p with
              | Some m => negb (endpointConfigEqual (endpoint m) e)
              | None => false
              end); simpl; [|done].
    by rewrite lookup_insert_eq.
  - by rewrite lookup_insert_eq.
Qed.

Lemma reload_range_nil (l : list config.Endpoint)
    (st : Service * gmap string ptr) :
  (reload_range l st).2 = None.
Proof.
  revert st. induction l as [|e l IH]; intros st; simpl; [done|].
  pose proof (reload_endpoint_nil e st) as H.
  destruct (reload_endpoint e st) as [[s new] [err|]]; [discriminate|].
  apply IH.
Qed.


(** ** Cancellation scopes *)

Lemma flag_cancel_eq (t : context.table) (c : context.Context) :
  (c < length t)%nat → context.flag (context.cancel t c) c = true.
Proof.
  intros Hc. unfold context.flag, context.cancel.
  rewrite list_lookup_alter_eq.
  destruct (lookup_lt_is_Some_2 t c Hc) as [sc ->]. done.
Qed.

Lemma flag_cancel_ne (t : context.table) (c c' : context.Context) :
  c ≠ c' → context.flag (context.cancel t c) c' = context.flag t c'.
Proof.
  intros Hne. unfold context.flag, context.cancel.
  by rewrite list_lookup_alter_ne.
Qed.

Lemma flag_cancel_mono (t : context.table) (c c' : context.Context) :
  context.flag t c' = true → context.flag (context.cancel t c) c' = true.
Proof.
  intros H.
  destruct (decide (c = c')) as [->|Hne]; [|by rewrite flag_cancel_ne].
  revert H. unfold context.flag, context.cancel. rewrite list_lookup_alter_eq.
  by destruct (t !! c').
Qed.

Lemma ancestors_of_cancel (t : context.table) (c c' : context.Context) :
  context.ancestors_of (context.cancel t c) c' = context.ancestors_of t c'.
Proof.
  unfold context.ancestors_of, context.cancel.
  destruct (decide (c = c')) as [->|Hne].
  - rewrite list_lookup_alter_eq. by destruct (t !! c').
  - by rewrite list_lookup_alter_ne.
Qed.

Lemma length_cancel (t : context.table) (c : context.Context) :
  length (context.cancel t c) = length t.
Proof. apply length_alter. Qed.

Lemma flag_app_l (t l : context.table) (c : context.Context) :
  (c < length t)%nat → context.flag (t ++ l) c = context.flag t c.
Proof. intros Hc. unfold context.flag. by rewrite lookup_app_l. Qed.

Lemma ancestors_of_app_l (t l : context.table) (c : context.Context) :
  (c < length t)%nat →
  context.ancestors_of (t ++ l) c = context.ancestors_of t c.
Proof. intros Hc. unfold context.ancestors_of. by rewrite lookup_app_l. Qed.

Lemma existsb_flag_ext (t t' : context.table) (l : list context.Context) :
  (∀ a, a ∈ l → context.flag t a = context.flag t' a) →
  existsb (context.flag t) l = existsb (context.flag t') l.
Proof.
  induction l as [|a l IH]; intros H; simpl; [done|].
  rewrite (H a) by left. rewrite IH; [done|].
  intros b Hb. apply H. by right.
Qed.

(** A scope whose ancestors are not cancelled is done exactly when its own
    cancel function has been called. *)
Lemma Done_flag (t : context.table) (c : context.Context) :
  existsb (context.flag t) (context.ancestors_of t c) = false →
  context.Done t c = context.flag t c.
Proof. intros H. unfold context.Done. rewrite H. apply orb_false_r. Qed.

(** Cancelling a scope makes every scope derived from it done. *)
Lemma Done_cancel_ancestor (t : context.table) (root c : context.Context) :
  (root < length t)%nat → root ∈ context.ancestors_of t c →
  context.Done (context.cancel t root) c = true.
Proof.
  intros Hlt Hin. unfold context.Done. rewrite ancestors_of_cancel.
  apply orb_true_iff. right. apply existsb_exists.
  exists root. split; [by apply list_elem_of_In|by apply flag_cancel_eq].
Qed.

(** ** The shape of the service state is kept *)


Lemma closed_table_ancestors (t : context.table) (c : context.Context) :
  closed_table t = true →
  Forall (λ a, (a < length t)%nat) (context.ancestors_of t c).
Proof.
  intros Hcl. unfold context.ancestors_of.
  destruct (t !! c) as [sc|] eqn:Hc; [|constructor].
  unfold closed_table in Hcl. rewrite forallb_forall in Hcl.
  apply list_elem_of_lookup_2, list_elem_of_In, Hcl in Hc.
  rewrite forallb_forall in Hc. apply Forall_forall. intros a Ha.
  apply list_elem_of_In, Hc in Ha. by apply Nat.ltb_lt.
Qed.

Lemma usable_root_parent (t : context.table) (root : context.Context) :
  usable_root t root = true →
  usable_parent t root ∧ usable_parent t context.Background.
Proof.
  unfold usable_root. rewrite !andb_true_iff, !negb_true_iff, !Nat.ltb_lt.
  intros ((((Hr & Hb) & Hdr) & Hdb) & Hcl).
  split; (split; [done|split; [done|by apply closed_table_ancestors]]).
Qed.

Lemma well_formed_ext (t : context.table) (s s' : Service) :
  scopes s' = scopes s → heap s' = heap s → goroutines s' = goroutines s →
  well_formed t s → well_formed t s'.
Proof.
  intros Hs Hh Hg [H1 H2 H3 H4 H5 H6].
  split; rewrite ?Hs, ?Hh, ?Hg; done.
Qed.

Lemma served_ext (s s' : Service) (u : string) (p : ptr) :
  scopes s' = scopes s → heap s' = heap s → goroutines s' = goroutines s →
  served s u p → served s' u p.
Proof.
  intros Hs Hh Hg (m & H1 & H2 & H3 & H4). exists m.
  rewrite Hs, Hh, Hg. done.
Qed.

Lemma startEndpoint_fields (ctx : context.Context) (e : config.Endpoint)
    (s : Service) :
  let s' := (startEndpoint ctx e s).1 in
  scopes s' = scopes s ++
    [ {| context.ancestors := ctx :: context.ancestors_of (scopes s) ctx;
         context.cancelled := false |} ] ∧
  heap s' = heap s ++
    [ {| endpoint := e; cancel := length (scopes s); lastCheck := 0 |} ] ∧
  endpoints s' = <[config.URL e := length (heap s)]> (endpoints s) ∧
  goroutines s' = goroutines s ++
    [go_monitorEndpoint (length (scopes s)) (length (heap s))] ∧
  shutdownWg s' = shutdownWg s + 1 ∧ config s' = config s ∧
  logger s' = logger s ∧ storage s' = storage s.
Proof. done. Qed.

Lemma monitor_ptrs_app (l k : list goroutine) :
  monitor_ptrs (l ++ k) = monitor_ptrs l ++ monitor_ptrs k.
Proof. apply omap_app. Qed.

Lemma elem_of_monitor_ptrs (gs : list goroutine) (p : ptr) :
  p ∈ monitor_ptrs gs ↔ ∃ c, go_monitorEndpoint c p ∈ gs.
Proof.
  unfold monitor_ptrs. rewrite list_elem_of_omap. split.
  - intros ([c q|c] & Hin & Heq); simplify_eq. by exists c.
  - intros [c Hin]. by exists (go_monitorEndpoint c p).
Qed.

Lemma well_formed_startEndpoint (t : context.table)
    (parent : context.Context) (e : config.Endpoint) (s : Service) :
  usable_parent t parent → well_formed t s →
  well_formed t (startEndpoint parent e s).1.
Proof.
  intros (Hpar & Hdone & Hanc) [Hlen Hpre Hcan Hancs Hgo Hnd].
  destruct (startEndpoint_fields parent e s)
    as (Hs & Hh & _ & Hg & _).
  set (s' := (startEndpoint parent e s).1) in *.
  assert (Hparent : context.ancestors_of (scopes s) parent
                    = context.ancestors_of t parent).
  { unfold context.ancestors_of. by rewrite Hpre. }
  split; rewrite ?Hs, ?Hh, ?Hg.
  - rewrite !length_app, Hlen. simpl. lia.
  - intros c Hc. rewrite lookup_app_l by lia. by apply Hpre.
  - intros p m Hm. apply lookup_app_Some in Hm as [Hm|[Hge Hm]].
    + exact (Hcan _ _ Hm).
    + apply list_lookup_singleton_Some in Hm as [Hp <-]. simpl. lia.
  - intros p m Hm. apply lookup_app_Some in Hm as [Hm|[Hge Hm]].
    + pose proof (Hcan _ _ Hm) as Hc. apply lookup_lt_Some in Hm as Hlt.
      rewrite ancestors_of_app_l by lia. exact (Hancs _ _ Hm).
    + apply list_lookup_singleton_Some in Hm as [Hp <-]. simpl.
      unfold context.ancestors_of at 1 3.
      rewrite lookup_app_r, Nat.sub_diag by lia. simpl. rewrite Hparent.
      split; [|by constructor].
      unfold context.Done in Hdone. apply orb_false_iff in Hdone as [-> ->].
      done.
  - intros c p Hin. rewrite length_app. simpl.
    apply elem_of_app in Hin as [Hin|Hin].
    + apply Hgo in Hin. lia.
    + apply list_elem_of_singleton in Hin. simplify_eq. lia.
  - rewrite monitor_ptrs_app. apply NoDup_app. split; [done|]. split.
    + intros p Hp Hp'. simpl in Hp'. apply list_elem_of_singleton in Hp'.
      apply elem_of_monitor_ptrs in Hp as [c Hc]. apply Hgo in Hc. lia.
    + simpl. apply NoDup_singleton.
Qed.

Lemma served_startEndpoint_old (t : context.table)
    (parent : context.Context) (e : config.Endpoint) (s : Service)
    (u : string) (p : ptr) :
  well_formed t s → served s u p → served (startEndpoint parent e s).1 u p.
Proof.
  intros [Hlen Hpre Hcan Hancs Hgo Hnd] (m & Hm & Hu & Hf & Hg).
  destruct (startEndpoint_fields parent e s) as (Hs & Hh & _ & Hg' & _).
  exists m. rewrite Hs, Hh, Hg'.
  pose proof (Hcan _ _ Hm) as Hc. apply lookup_lt_Some in Hm as Hlt.
  split; [by apply lookup_app_l_Some|]. split; [done|].
  split; [by rewrite flag_app_l by lia|]. apply elem_of_app. by left.
Qed.

Lemma served_startEndpoint_new (t : context.table)
    (parent : context.Context) (e : config.Endpoint) (s : Service) :
  served (startEndpoint parent e s).1 (config.URL e) (length (heap s)).
Proof.
  destruct (startEndpoint_fields parent e s) as (Hs & Hh & _ & Hg' & _).
  eexists. rewrite Hs, Hh, Hg'. split.
  { rewrite lookup_app_r, Nat.sub_diag by lia. reflexivity. }
  simpl. split; [done|]. split.
  - unfold context.flag. by rewrite lookup_app_r, Nat.sub_diag by lia.
  - apply elem_of_app. right. by apply list_elem_of_singleton.
Qed.

Lemma call_cancel_fields (p : ptr) (s : Service) :
  let s' := call_cancel p s in
  scopes s' = match heap s !! p with
              | Some m => context.cancel (scopes s) (cancel m)
              | None => scopes s
              end ∧
  heap s' = heap s ∧ endpoints s' = endpoints s ∧
  goroutines s' = goroutines s ∧ shutdownWg s' = shutdownWg s ∧
  config s' = config s ∧ logger s' = logger s ∧ storage s' = storage s.
Proof. unfold call_cancel. by destruct (heap s !! p). Qed.

Lemma well_formed_call_cancel (t : context.table) (p : ptr) (s : Service) :
  well_formed t s → well_formed t (call_cancel p s).
Proof.
  intros Hwf. destruct (call_cancel_fields p s) as (Hs & Hh & _ & Hg & _).
  destruct (heap s !! p) as [m|] eqn:Hm;
    [|by apply (well_formed_ext t s)].
  destruct Hwf as [Hlen Hpre Hcan Hancs Hgo Hnd].
  split; rewrite ?Hs, ?Hh, ?Hg, ?length_cancel; try done.
  - intros c Hc. unfold context.cancel.
    rewrite list_lookup_alter_ne; [by apply Hpre|].
    rewrite (Hcan _ _ Hm). lia.
  - intros q m' Hm'. rewrite ancestors_of_cancel. exact (Hancs _ _ Hm').
Qed.

Lemma served_call_cancel_ne (t : context.table) (p q : ptr) (s : Service)
    (u : string) :
  well_formed t s → served s u p → p ≠ q → served (call_cancel q s) u p.
Proof.
  intros Hwf (m & Hm & Hu & Hf & Hin) Hne.
  destruct (call_cancel_fields q s) as (Hs & Hh & _ & Hg & _).
  exists m. rewrite Hs, Hh, Hg. repeat split; try done.
  destruct (heap s !! q) as [m'|] eqn:Hm'; [|done].
  rewrite flag_cancel_ne; [done|].
  rewrite (wf_cancel _ _ Hwf _ _ Hm), (wf_cancel _ _ Hwf _ _ Hm'). lia.
Qed.

(** For a monitor of a well-formed state, [ctx.Done()] is ready exactly
    when the monitor's own cancel function has been called. *)
Lemma monitor_Done_flag (t : context.table) (s : Service) (p : ptr)
    (m : EndpointMonitor) :
  well_formed t s → heap s !! p = Some m →
  context.Done (scopes s) (cancel m) = context.flag (scopes s) (cancel m).
Proof.
  intros Hwf Hm. apply Done_flag.
  destruct (wf_ancestors _ _ Hwf _ _ Hm) as [Hex Hall].
  rewrite <- Hex. apply existsb_flag_ext. intros a Ha.
  rewrite Forall_forall in Hall. apply Hall in Ha.
  unfold context.flag. by rewrite (wf_prefix _ _ Hwf).
Qed.

Lemma all_served_startEndpoint (t : context.table) (parent : context.Context)
    (e : config.Endpoint) (s : Service) :
  well_formed t s →
  (∀ u p, u ≠ config.URL e → endpoints s !! u = Some p → served s u p) →
  all_served (startEndpoint parent e s).1.
Proof.
  intros Hwf Hs u p. 
  destruct (startEndpoint_fields parent e s) as (_ & _ & -> & _).
  destruct (decide (u = config.URL e)) as [->|Hne].
  - rewrite lookup_insert_eq. intros [= <-].
    by apply (served_startEndpoint_new t).
  - rewrite lookup_insert_ne by done. intros Hp.
    apply (served_startEndpoint_old t); [done|]. by apply Hs.
Qed.

Lemma served_inj (s : Service) (u u' : string) (p : ptr) :
  served s u p → served s u' p → u = u'.
Proof. intros (m & Hm & <- & _) (m' & Hm' & <- & _). congruence. Qed.

Lemma startEndpoint_eq (ctx : context.Context) (e : config.Endpoint)
    (s : Service) :
  startEndpoint ctx e s = ((startEndpoint ctx e s).1, None).
Proof. done. Qed.

Lemma startEndpoint_lookup (ctx : context.Context) (e : config.Endpoint)
    (s : Service) :
  endpoints (startEndpoint ctx e s).1 !! config.URL e
    = Some (length (heap s)).
Proof.
  destruct (startEndpoint_fields ctx e s) as (_ & _ & -> & _).
  apply lookup_insert_eq.
Qed.

Lemma Start_range_cons (root : context.Context) (e : config.Endpoint)
    (l : list config.Endpoint) (s : Service) :
  Start_range root (e :: l) s =
    if config.Enabled e then Start_range root l (startEndpoint root e s).1
    else Start_range root l s.
Proof. simpl. by destruct (config.Enabled e). Qed.

(** What one turn of the loop of [reloadConfig] computes. *)
Lemma reload_endpoint_eq (e : config.Endpoint) (s : Service)
    (new : gmap string ptr) :
  reload_endpoint e (s, new) =
    if config.Enabled e then
      match endpoints s !! config.URL e with
      | Some p =>
          if match heap s !! p with
             | Some m => negb (endpointConfigEqual (endpoint m) e)
             | None => false
             end
          then
            ((startEndpoint context.Background e
                (call_cancel p (Printf (log_updating (config.URL e)) s))).1,
             <[config.URL e := length (heap s)]> new, None)
          else (s, <[config.URL e := p]> new, None)
      | None =>
          ((startEndpoint context.Background e
              (Printf (log_adding (config.URL e)) s)).1,
           <[config.URL e := length (heap s)]> new, None)
      end
    else (s, new, None).
Proof.
  unfold reload_endpoint. destruct (config.Enabled e); [|done]. cbn [negb].
  destruct (endpoints s !! config.URL e) as [p|].
  - destruct (match heap s !! p with
              | Some m => negb (endpointConfigEqual (endpoint m) e)
              | None => false
              end); [|done].
    destruct (call_cancel_fields p (Printf (log_updating (config.URL e)) s))
      as (_ & Hh & _). simpl in Hh.
    set (s2 := call_cancel p (Printf (log_updating (config.URL e)) s)) in *.
    rewrite (startEndpoint_eq context.Background e s2). cbv beta iota.
    by rewrite startEndpoint_lookup, Hh.
  - set (s2 := Printf (log_adding (config.URL e)) s).
    rewrite (startEndpoint_eq context.Background e s2). cbv beta iota.
    by rewrite startEndpoint_lookup.
Qed.

(** *** The loop of [Start] *)

Lemma Start_range_inv (t : context.table) (root : context.Context)
    (l : list config.Endpoint) (s : Service) :
  usable_parent t root → well_formed t s → all_served s →
  let s' := (Start_range root l s).1 in
  well_formed t s' ∧ all_served s' ∧ config s' = config s ∧
  dom (endpoints s') =
    dom (endpoints s) ∪
    list_to_set (config.URL <$> filter (λ e, config.Enabled e = true) l).
Proof.
  intros Hroot. revert s. induction l as [|e l IH]; intros s Hwf Hsv.
  { simpl. split_and!; try done; set_solver. }
  rewrite Start_range_cons. destruct (config.Enabled e) eqn:Hen.
  - rewrite filter_cons_True by done.
    destruct (IH (startEndpoint root e s).1) as (H1 & H2 & H3 & H4).
    + by apply well_formed_startEndpoint.
    + apply (all_served_startEndpoint t); [done|]. intros u p _. apply Hsv.
    + split_and!; try done. rewrite H4.
      destruct (startEndpoint_fields root e s) as (_ & _ & -> & _).
      rewrite dom_insert_L. set_solver.
  - rewrite filter_cons_False by (by rewrite Hen).
    by apply IH.
Qed.

(** *** The loop of [reloadConfig] over the new endpoints *)

Lemma reload_endpoint_inv (t : context.table) (e : config.Endpoint)
    (s : Service) (new : gmap string ptr) :
  usable_parent t context.Background →
  well_formed t s → all_served s → new ⊆ endpoints s →
  let r := reload_endpoint e (s, new) in
  well_formed t r.1.1 ∧ all_served r.1.1 ∧ r.1.2 ⊆ endpoints r.1.1 ∧
  config r.1.1 = config s ∧
  dom r.1.2 = dom new ∪ (if config.Enabled e then {[config.URL e]} else ∅).
Proof.
  intros Hbg Hwf Hsv Hsub. rewrite reload_endpoint_eq.
  destruct (config.Enabled e); [|simpl; split_and!; try done; set_solver].
  destruct (endpoints s !! config.URL e) as [p|] eqn:Hp.
  - destruct (match heap s !! p with
              | Some m => negb (endpointConfigEqual (endpoint m) e)
              | None => false
              end) eqn:Hch; cbn [fst snd].
    + set (s1 := Printf (log_updating (config.URL e)) s).
      assert (Hwf1 : well_formed t s1) by by apply (well_formed_ext t s).
      assert (Hwf2 : well_formed t (call_cancel p s1))
        by by apply well_formed_call_cancel.
      destruct (call_cancel_fields p s1) as (_ & Hh & He & _ & _ & Hc & _).
      destruct (startEndpoint_fields context.Background e (call_cancel p s1))
        as (_ & _ & He' & _ & _ & Hc' & _).
      split; [by apply well_formed_startEndpoint|]. split.
      { apply (all_served_startEndpoint t); [done|]. intros u q Hne Hq.
        rewrite He in Hq. simpl in Hq.
        apply (served_call_cancel_ne t); [done| |].
        - apply (served_ext s); try done. by apply Hsv.
        - intros ->. apply Hne. eapply served_inj; by apply Hsv. }
      rewrite He', Hc', He, Hc, Hh. simpl. split_and!; try done.
      * by apply insert_mono.
      * rewrite dom_insert_L. set_solver.
    + split_and!; try done.
      * by apply insert_subseteq_l.
      * rewrite dom_insert_L. set_solver.
  - cbn [fst snd]. set (s1 := Printf (log_adding (config.URL e)) s).
    assert (Hwf1 : well_formed t s1) by by apply (well_formed_ext t s).
    destruct (startEndpoint_fields context.Background e s1)
      as (_ & _ & He' & _ & _ & Hc' & _).
    split; [by apply well_formed_startEndpoint|]. split.
    { apply (all_served_startEndpoint t); [done|]. intros u q Hne Hq.
      apply (served_ext s); try done. by apply Hsv. }
    rewrite He', Hc'. simpl. split_and!; try done.
    + by apply insert_mono.
    + rewrite dom_insert_L. set_solver.
Qed.

Lemma reload_range_inv (t : context.table) (l : list config.Endpoint)
    (s : Service) (new : gmap string ptr) :
  usable_parent t context.Background →
  well_formed t s → all_served s → new ⊆ endpoints s →
  let r := reload_range l (s, new) in
  well_formed t r.1.1 ∧ all_served r.1.1 ∧ r.1.2 ⊆ endpoints r.1.1 ∧
  config r.1.1 = config s ∧
  dom r.1.2 =
    dom new ∪
    list_to_set (config.URL <$> filter (λ e, config.Enabled e = true) l).
Proof.
  intros Hbg. revert s new.
  induction l as [|e l IH]; intros s new Hwf Hsv Hsub; cbn [reload_range].
  { simpl. split_and!; try done; set_solver. }
  pose proof (reload_endpoint_inv t e s new Hbg Hwf Hsv Hsub) as Hstep.
  pose proof (reload_endpoint_nil e (s, new)) as Hnil.
  destruct (reload_endpoint e (s, new)) as [[s1 new1] [err|]];
    [discriminate|]. cbn [fst snd] in Hstep.
  destruct Hstep as (H1 & H2 & H3 & H4 & H5).
  destruct (IH s1 new1 H1 H2 H3) as (G1 & G2 & G3 & G4 & G5).
  split; [done|]. split; [done|]. split; [done|]. split; [congruence|].
  rewrite G5, H5.
  destruct (config.Enabled e) eqn:Hen.
  - rewrite filter_cons_True by done. set_solver.
  - rewrite filter_cons_False by (by rewrite Hen). set_solver.
Qed.

(** *** The loop of [reloadConfig] over the old map *)

Lemma reload_remove_fold (t : context.table) (new : gmap string ptr)
    (l : list (string * ptr)) (s : Service) :
  well_formed t s →
  let s' := foldr (reload_remove new) s l in
  well_formed t s' ∧ heap s' = heap s ∧ endpoints s' = endpoints s ∧
  goroutines s' = goroutines s ∧ config s' = config s ∧
  shutdownWg s' = shutdownWg s ∧
  (∀ u p, served s u p →
          (∀ e, e ∈ l → new !! e.1 = None → e.2 ≠ p) → served s' u p).
Proof.
  intros Hwf. induction l as [|e l IH]; simpl; [done|].
  destruct IH as (H1 & H2 & H3 & H4 & H5 & H6 & H7).
  set (s1 := foldr (reload_remove new) s l) in *.
  unfold reload_remove. destruct (new !! e.1) eqn:Hnew.
  - do 6 (split; [done|]). intros u p Hs Hl. apply H7; [done|].
    intros e' He'. apply Hl. by right.
  - set (s2 := Printf (log_removing e.1) s1).
    assert (Hwf2 : well_formed t s2) by by apply (well_formed_ext t s1).
    destruct (call_cancel_fields e.2 s2)
      as (_ & Hh & He & Hg & Hw & Hc & _).
    split; [by apply well_formed_call_cancel|].
    rewrite Hh, He, Hg, Hw, Hc. do 5 (split; [done|]).
    intros u p Hs Hl. apply (served_call_cancel_ne t); [done| |].
    + apply (served_ext s1); try done. apply H7; [done|].
      intros e' He'. apply Hl. by right.
    + intros Heq. by apply (Hl e); [left| |].
Qed.

(** *** [reloadConfig] *)

Lemma reloadConfig_inv (t : context.table)
    (onReload : config.Config + string) (s : Service) :
  usable_parent t context.Background →
  well_formed t s → all_served s →
  let s' := (reloadConfig onReload s).1 in
  well_formed t s' ∧ all_served s' ∧
  match onReload with
  | inl cfg =>
      config s' = config.Monitor cfg ∧
      dom (endpoints s') = enabled_urls (config.Monitor cfg)
  | inr _ => config s' = config s ∧ endpoints s' = endpoints s
  end.
Proof.
  intros Hbg Hwf Hsv. unfold reloadConfig.
  set (s0 := Printf log_reloading s).
  assert (Hwf0 : well_formed t s0) by by apply (well_formed_ext t s).
  assert (Hsv0 : all_served s0).
  { intros u p Hp. apply (served_ext s); try done. by apply Hsv. }
  destruct onReload as [cfg|err]; simpl; [|done].
  pose proof (reload_range_inv t (config.Endpoints (config.Monitor cfg))
                s0 ∅ Hbg Hwf0 Hsv0 (map_empty_subseteq _)) as Hloop.
  pose proof (reload_range_nil (config.Endpoints (config.Monitor cfg))
                (s0, ∅)) as Hnil.
  destruct (reload_range _ _) as [[s1 new] [err|]]; [discriminate|].
  simpl in *. destruct Hloop as (H1 & H2 & H3 & H4 & H5).
  destruct (reload_remove_fold t new (map_to_list (endpoints s1)) s1 H1)
    as (G1 & G2 & G3 & G4 & G5 & G6 & G7).
  split; [by eapply well_formed_ext; [..|exact G1]|]. split.
  - intros u p Hp. simpl in Hp.
    eapply served_ext; [..|apply G7]; try done.
    + apply H2. by eapply lookup_weaken.
    + intros [u' p'] Hin Hnone Heq. simpl in *. subst p'.
      apply elem_of_map_to_list in Hin.
      assert (u' = u); [|congruence].
      eapply served_inj; apply H2; [done|]. by eapply lookup_weaken.
  - split; [done|]. rewrite H5. unfold enabled_urls. set_solver.
Qed.

(** ** The turns of the goroutines *)

Lemma performHealthCheck_frame (quote : string → string) (start : Z)
    (get : get_result) (since : Z) (e : config.Endpoint) (s : Service) :
  let s' := (performHealthCheck quote start get since e s).1 in
  endpoints s' = endpoints s ∧ config s' = config s ∧
  scopes s' = scopes s ∧ goroutines s' = goroutines s ∧
  shutdownWg s' = shutdownWg s ∧ heap s' = heap s ∧
  storage s' = storage s.
Proof.
  unfold performHealthCheck. destruct get as [err|code]; [done|].
  by destruct (code =? StatusOK).
Qed.

(** What a tick of a polling loop does to the state. *)
Lemma monitor_tick_fields (quote : string → string) (ctx : context.Context)
    (monitor : ptr) (m : EndpointMonitor) (start : Z) (get : get_result)
    (since : Z) (save : option string) (s : Service) :
  heap s !! monitor = Some m →
  let probe := performHealthCheck quote start get since (endpoint m) s in
  ∃ s', monitorEndpoint_select quote ctx monitor
          (monitor_ticker_C start get since save) s
          = Some (s', loop_continue) ∧
        storage s' = storage s ++ [(probe.2, save)] ∧
        heap s' = <[monitor := {| endpoint := endpoint m; cancel := cancel m;
                                  lastCheck := Timestamp probe.2 |}]> (heap s) ∧
        logger s' = logger probe.1 ++
          match save with
          | Some err => [log_error_saving (config.URL (endpoint m)) err]
          | None => []
          end ∧
        endpoints s' = endpoints s ∧ config s' = config s ∧
        scopes s' = scopes s ∧ goroutines s' = goroutines s ∧
        shutdownWg s' = shutdownWg s.
Proof.
  intros Hm probe. unfold monitorEndpoint_select. rewrite Hm.
  destruct (performHealthCheck_frame quote start get since (endpoint m) s)
    as (He & Hc & Hsc & Hg & Hw & Hh & Hst).
  fold probe in He, Hc, Hsc, Hg, Hw, Hh, Hst |- *.
  destruct probe as [s1 check]. simpl in *.
  eexists. split; [reflexivity|].
  destruct save as [err|]; simpl; rewrite ?Hh, ?Hst, ?app_nil_r; done.
Qed.

Lemma well_formed_lastCheck (t : context.table) (s s' : Service) (p : ptr)
    (m : EndpointMonitor) (x : Z) :
  well_formed t s → heap s !! p = Some m →
  scopes s' = scopes s → goroutines s' = goroutines s →
  heap s' = <[p := {| endpoint := endpoint m; cancel := cancel m;
                      lastCheck := x |}]> (heap s) →
  well_formed t s'.
Proof.
  intros [Hlen Hpre Hcan Hancs Hgo Hnd] Hm Hs Hg Hh.
  assert (Hlook : ∀ q m', heap s' !! q = Some m' →
            ∃ m0, heap s !! q = Some m0 ∧ cancel m' = cancel m0).
  { intros q m'. rewrite Hh. intros Hq.
    apply list_lookup_insert_Some in Hq as [(-> & <- & _)|[_ Hq]]; eauto. }
  split; rewrite ?Hs, ?Hg; try done.
  - by rewrite Hh, length_insert.
  - intros q m' Hq. destruct (Hlook _ _ Hq) as (m0 & Hq0 & ->).
    exact (Hcan _ _ Hq0).
  - intros q m' Hq. destruct (Hlook _ _ Hq) as (m0 & Hq0 & ->).
    exact (Hancs _ _ Hq0).
  - intros c q Hin. rewrite Hh, length_insert. by apply Hgo.
Qed.

Lemma served_lastCheck (s s' : Service) (p : ptr) (m : EndpointMonitor)
    (x : Z) (u : string) (q : ptr) :
  served s u q → heap s !! p = Some m →
  scopes s' = scopes s → goroutines s' = goroutines s →
  heap s' = <[p := {| endpoint := endpoint m; cancel := cancel m;
                      lastCheck := x |}]> (heap s) →
  served s' u q.
Proof.
  intros (m0 & Hq & Hu & Hf & Hin) Hm Hs Hg Hh.
  destruct (decide (p = q)) as [->|Hne].
  - exists {| endpoint := endpoint m; cancel := cancel m; lastCheck := x |}.
    rewrite Hs, Hg, Hh. simplify_eq. simpl. split; [|done].
    apply list_lookup_insert_eq. by eapply lookup_lt_Some.
  - exists m0. rewrite Hs, Hg, Hh. split; [|done].
    by rewrite list_lookup_insert_ne.
Qed.

Lemma elem_of_delete_ne {A} (l : list A) (i : nat) (x y : A) :
  x ∈ l → l !! i = Some y → x ≠ y → x ∈ delete i l.
Proof.
  intros Hx Hi Hne. rewrite delete_take_drop.
  rewrite <- (take_drop_middle l i y Hi) in Hx.
  rewrite !elem_of_app, elem_of_cons in Hx. rewrite elem_of_app. tauto.
Qed.

Lemma monitor_ptrs_delete_NoDup (gs : list goroutine) (i : nat) :
  NoDup (monitor_ptrs gs) → NoDup (monitor_ptrs (delete i gs)).
Proof.
  intros Hnd. destruct (gs !! i) as [g|] eqn:Hi.
  - rewrite delete_take_drop. rewrite <- (take_drop_middle gs i g Hi) in Hnd.
    rewrite monitor_ptrs_app in *.
    change (g :: drop (S i) gs) with ([g] ++ drop (S i) gs) in Hnd.
    rewrite monitor_ptrs_app in Hnd.
    apply NoDup_app in Hnd as (H1 & H2 & H3).
    apply NoDup_app in H3 as (_ & _ & H3).
    apply NoDup_app. split; [done|]. split; [|done].
    intros p Hp. specialize (H2 p Hp). rewrite elem_of_app in H2. tauto.
  - rewrite delete_take_drop.
    apply lookup_ge_None in Hi.
    rewrite take_ge, drop_ge, app_nil_r by lia. done.
Qed.

Lemma well_formed_return (t : context.table) (s s' : Service) (i : nat) :
  well_formed t s → scopes s' = scopes s → heap s' = heap s →
  goroutines s' = delete i (goroutines s) → well_formed t s'.
Proof.
  intros [Hlen Hpre Hcan Hancs Hgo Hnd] Hs Hh Hg.
  split; rewrite ?Hs, ?Hh, ?Hg; try done.
  - intros c p Hin. apply Hgo. by eapply list_elem_of_delete_inv.
  - by apply monitor_ptrs_delete_NoDup.
Qed.

Lemma well_formed_go_watchConfig (t : context.table) (s s' : Service)
    (ctx : context.Context) :
  well_formed t s → scopes s' = scopes s → heap s' = heap s →
  goroutines s' = goroutines s ++ [go_watchConfig ctx] → well_formed t s'.
Proof.
  intros [Hlen Hpre Hcan Hancs Hgo Hnd] Hs Hh Hg.
  split; rewrite ?Hs, ?Hh, ?Hg; try done.
  - intros c p Hin. apply Hgo. apply elem_of_app in Hin as [Hin|Hin]; [done|].
    by apply list_elem_of_singleton in Hin.
  - rewrite monitor_ptrs_app. simpl. by rewrite app_nil_r.
Qed.


Lemma steady_Start (t : context.table) (root : context.Context)
    (cfg : config.MonitorConfig) :
  usable_root t root = true → steady t (Start root (NewService cfg t)).1.
Proof.
  intros Hroot. apply usable_root_parent in Hroot as [Hroot _].
  assert (Hwf0 : well_formed t (NewService cfg t)).
  { split; simpl.
    - lia.
    - done.
    - intros p m Hm. by rewrite lookup_nil in Hm.
    - intros p m Hm. by rewrite lookup_nil in Hm.
    - intros c p Hin. by apply elem_of_nil in Hin.
    - constructor. }
  assert (Hsv0 : all_served (NewService cfg t)) by (by intros u p Hp).
  pose proof (Start_range_inv t root (config.Endpoints cfg)
                (NewService cfg t) Hroot Hwf0 Hsv0) as Hloop.
  pose proof (Start_range_nil root (config.Endpoints cfg)
                (NewService cfg t)) as Hnil.
  unfold Start. change (config (NewService cfg t)) with cfg.
  destruct (Start_range _ _ _) as [s1 [err|]]; [discriminate|].
  simpl in Hloop. destruct Hloop as (H1 & H2 & H3 & H4). cbn [fst].
  split; [|split].
  - by eapply well_formed_go_watchConfig.
  - intros u p Hp. simpl in Hp. apply (H2 u p) in Hp as (m & ? & ? & ? & ?).
    exists m. simpl. split_and!; try done. apply elem_of_app. by left.
  - simpl. rewrite H4, H3. unfold enabled_urls. simpl. set_solver.
Qed.

Lemma steady_run (quote : string → string) (t : context.table)
    (s s' : Service) (i : nat) (e : event) :
  usable_parent t context.Background →
  steady t s → run quote i e s = Some s' → steady t s'.
Proof.
  intros Hbg (Hwf & Hsv & Hdom). unfold run.
  destruct (goroutines s !! i) as [[ctx monitor|ctx]|] eqn:Hi; [| |done].
  - destruct e as [c|c]; [|done].
    destruct (heap s !! monitor) as [m|] eqn:Hm;
      [|unfold monitorEndpoint_select; by rewrite Hm].
    destruct c as [|start get since save].
    + unfold monitorEndpoint_select. rewrite Hm.
      destruct (context.Done (scopes s) ctx) eqn:Hd; [|done].
      intros [= <-]. split; [|split]; [by eapply well_formed_return| |done].
      intros u p Hp. destruct (Hsv u p Hp) as (m' & Hm' & Hu & Hf & Hin).
      exists m'. simpl. split_and!; try done.
      eapply elem_of_delete_ne; [done..|]. intros [= <- <-].
      apply list_elem_of_lookup_2, (wf_goroutines _ _ Hwf) in Hi as [_ Hc].
      rewrite <- (monitor_Done_flag t s p m' Hwf Hm') in Hf. congruence.
    + destruct (monitor_tick_fields quote ctx monitor m start get since save
                  s Hm) as (s1 & -> & _ & Hh & _ & He & Hc & Hs & Hg & _).
      intros [= <-]. split; [|split].
      * by eapply well_formed_lastCheck.
      * intros u p Hp. rewrite He in Hp.
        eapply served_lastCheck; [by apply Hsv|done..].
      * by rewrite He, Hc.
  - destruct e as [c|c]; [done|]. destruct c as [|onReload]; simpl.
    + destruct (context.Done (scopes s) ctx); [|done]. intros [= <-].
      split; [|split]; [by eapply well_formed_return| |done].
      intros u p Hp. destruct (Hsv u p Hp) as (m' & Hm' & Hu & Hf & Hin).
      exists m'. simpl. split_and!; try done.
      by eapply elem_of_delete_ne.
    + pose proof (reloadConfig_inv t onReload s Hbg Hwf Hsv) as Hr.
      destruct (reloadConfig onReload s) as [s1 o]. simpl in Hr.
      destruct Hr as (H1 & H2 & H3).
      assert (Hst : steady t s1).
      { split; [done|]. split; [done|].
        destruct onReload as [cfg|err]; destruct H3 as [H3 H4];
          [by rewrite H3|by rewrite H3, H4]. }
      destruct o as [err|]; intros [= <-]; [|done].
      destruct Hst as (G1 & G2 & G3). split; [|split]; [|  |done].
      * by apply (well_formed_ext t s1).
      * intros u p Hp. apply (served_ext s1); try done. by apply G2.
Qed.

Lemma steady_reachable (quote : string → string) (t : context.table)
    (root : context.Context) (s : Service) :
  usable_root t root = true → reachable quote t root s → steady t s.
Proof.
  intros Hroot Hreach. induction Hreach as [cfg|s s' i e _ IH Hrun].
  - by apply steady_Start.
  - eapply steady_run; [|done..]. by apply usable_root_parent in Hroot as [_ ?].
Qed.

(** ** Counting the live polling loops of a monitor *)

Lemma filter_none {A} (P : A → Prop) `{!∀ x, Decision (P x)} (l : list A) :
  (∀ x, x ∈ l → ¬ P x) → filter P l = [].
Proof.
  induction l as [|x l IH]; intros Hall; [done|].
  rewrite filter_cons_False by (apply Hall; by left).
  apply IH. intros y Hy. apply Hall. by right.
Qed.

Lemma live_loops_one (t : context.table) (s : Service) (u : string)
    (p : ptr) :
  well_formed t s → served s u p → live_loops s p = 1%nat.
Proof.
  intros Hwf (m & Hm & _ & Hf & Hin). unfold live_loops.
  rewrite <- (monitor_Done_flag t s p m Hwf Hm) in Hf.
  pose proof (wf_NoDup _ _ Hwf) as Hnd. revert Hin Hnd.
  generalize (goroutines s) as gs.
  induction gs as [|g gs IH]; intros Hin Hnd; [by apply elem_of_nil in Hin|].
  apply elem_of_cons in Hin as [<-|Hin].
  - rewrite filter_cons_True.
    2:{ simpl. rewrite Hf. by rewrite bool_decide_eq_true_2. }
    simpl in Hnd. apply NoDup_cons in Hnd as [Hnot _].
    rewrite filter_none; [done|]. intros [c q|c] Hg; simpl; [|done].
    intros Hq. apply andb_true_iff in Hq as [Hq _].
    apply bool_decide_eq_true in Hq as ->.
    apply Hnot, elem_of_monitor_ptrs. by exists c.
  - destruct g as [c q|c]; simpl in Hnd.
    + apply NoDup_cons in Hnd as [Hnot Hnd].
      rewrite filter_cons_False; [by apply IH|]. simpl.
      intros Hq. apply andb_true_iff in Hq as [Hq _].
      apply bool_decide_eq_true in Hq as ->.
      apply Hnot, elem_of_monitor_ptrs. by eexists.
    + rewrite filter_cons_False by done. by apply IH.
Qed.

Lemma live_loops_zero (t : context.table) (s : Service) (p : ptr)
    (m : EndpointMonitor) :
  well_formed t s → heap s !! p = Some m →
  context.flag (scopes s) (cancel m) = true → live_loops s p = 0%nat.
Proof.
  intros Hwf Hm Hf. unfold live_loops. rewrite filter_none; [done|].
  intros [c q|c] Hin; simpl; [|done]. intros Hq.
  apply andb_true_iff in Hq as [Hq Hd].
  apply bool_decide_eq_true in Hq as ->.
  apply (wf_goroutines _ _ Hwf) in Hin as [_ ->].
  rewrite <- (wf_cancel _ _ Hwf _ _ Hm) in Hd.
  rewrite (monitor_Done_flag t s p m Hwf Hm), Hf in Hd. done.
Qed.

(** ** [Shutdown] *)

Lemma cancel_all_spec (t : context.table) (l : list (string * ptr))
    (s : Service) :
  well_formed t s →
  let s' := foldr (λ entry s, call_cancel entry.2 s) s l in
  well_formed t s' ∧ heap s' = heap s ∧ endpoints s' = endpoints s ∧
  goroutines s' = goroutines s ∧ config s' = config s ∧
  shutdownWg s' = shutdownWg s ∧ logger s' = logger s ∧
  (∀ c, context.flag (scopes s') c = true ↔
        context.flag (scopes s) c = true ∨
        ∃ e m, e ∈ l ∧ heap s !! e.2 = Some m ∧ cancel m = c).
Proof.
  intros Hwf. induction l as [|e l IH]; simpl.
  { split_and!; try done. intros c. split; [by left|].
    intros [?|(e & m & He & _)]; [done|]. by apply elem_of_nil in He. }
  destruct IH as (H1 & H2 & H3 & H4 & H5 & H6 & H7 & H8).
  set (s1 := foldr (λ entry s, call_cancel entry.2 s) s l) in *.
  destruct (call_cancel_fields e.2 s1)
    as (Hs & Hh & He & Hg & Hw & Hc & Hl & _).
  rewrite Hh, He, Hg, Hw, Hc, Hl.
  split; [by apply well_formed_call_cancel|]. do 6 (split; [done|]).
  intros c. rewrite Hs, H2. destruct (heap s !! e.2) as [m|] eqn:Hm.
  - destruct (decide (cancel m = c)) as [<-|Hne].
    + split.
      * intros _. right. exists e, m. split_and!; [by left|done..].
      * intros _. apply flag_cancel_eq.
        rewrite (wf_scopes_length _ _ H1), H2, (wf_cancel _ _ Hwf _ _ Hm).
        apply lookup_lt_Some in Hm. lia.
    + rewrite flag_cancel_ne by done. rewrite H8. split.
      * intros [?|(e' & m' & ? & ? & ?)]; [by left|right].
        exists e', m'. split_and!; [by right|done..].
      * intros [?|(e' & m' & Hin & Hm' & Hc')]; [by left|].
        apply elem_of_cons in Hin as [->|Hin]; [congruence|].
        right. by exists e', m'.
  - rewrite H8. split.
    + intros [?|(e' & m' & ? & ? & ?)]; [by left|right].
      exists e', m'. split_and!; [by right|done..].
    + intros [?|(e' & m' & Hin & Hm' & Hc')]; [by left|].
      apply elem_of_cons in Hin as [->|Hin]; [congruence|].
      right. by exists e', m'.
Qed.

(** The locked section of [Shutdown] calls the cancel function of every
    monitor of the map, and of nothing else. *)
Lemma Shutdown_cancel_spec (t : context.table) (s : Service) :
  well_formed t s →
  let s' := Shutdown_cancel s in
  well_formed t s' ∧ heap s' = heap s ∧ endpoints s' = endpoints s ∧
  goroutines s' = goroutines s ∧ config s' = config s ∧
  shutdownWg s' = shutdownWg s ∧ logger s' = logger s ∧
  (∀ c, context.flag (scopes s') c = true ↔
        context.flag (scopes s) c = true ∨
        ∃ u p m, endpoints s !! u = Some p ∧ heap s !! p = Some m ∧
                 cancel m = c).
Proof.
  intros Hwf.
  destruct (cancel_all_spec t (map_to_list (endpoints s)) s Hwf)
    as (H1 & H2 & H3 & H4 & H5 & H6 & H7 & H8).
  unfold Shutdown_cancel. do 7 (split; [done|]).
  intros c. rewrite H8. split; (intros [?|Hex]; [by left|right]).
  - destruct Hex as ([u p] & m & Hin & Hm & Hc).
    apply elem_of_map_to_list in Hin. by exists u, p, m.
  - destruct Hex as (u & p & m & Hin & Hm & Hc).
    exists (u, p), m. by rewrite elem_of_map_to_list.
Qed.

(** ** Errors that are absorbed *)

(** C7. When the configuration fetch returns an error, [reloadConfig]
    returns an error and the iteration of the watch loop changes nothing
    but the log: the stored configuration, the map of monitors, the
    monitors themselves, their scopes, the goroutines and the worker
    counter are as before, the error is logged, and the loop goes on to
    its next tick. *)
Theorem reload_error_changes_nothing (ctx : context.Context) (err : string)
    (s : Service) :
  (reloadConfig (inr err) s).2 = Some ("failed to reload config: " +:+ err) ∧
  ∃ s', watchConfig_select ctx (watch_ticker_C (inr err)) s
          = Some (s', loop_continue) ∧
        config s' = config s ∧ endpoints s' = endpoints s ∧
        heap s' = heap s ∧ scopes s' = scopes s ∧
        goroutines s' = goroutines s ∧ shutdownWg s' = shutdownWg s ∧
        storage s' = storage s ∧
        logger s' = logger s ++
          [log_reloading;
           log_error_reloading ("failed to reload config: " +:+ err)].
Proof.
  split; [done|]. eexists. split; [reflexivity|]. simpl.
  rewrite <- app_assoc. done.
Qed.

(** C8. On every tick of a polling loop the check built by
    [performHealthCheck] is handed to [SaveCheck] and the monitor's
    [lastCheck] becomes the timestamp of that probe. Whatever [SaveCheck]
    returns, the loop continues; when it returns an error, the error is
    logged and nothing else differs from the successful case. *)
Theorem tick_saves_check_and_continues (quote : string → string)
    (ctx : context.Context) (monitor : ptr) (m : EndpointMonitor)
    (start : Z) (get : get_result) (since : Z) (save : option string)
    (s : Service) :
  heap s !! monitor = Some m →
  let probe := performHealthCheck quote start get since (endpoint m) s in
  ∃ s', monitorEndpoint_select quote ctx monitor
          (monitor_ticker_C start get since save) s
          = Some (s', loop_continue) ∧
        storage s' = storage s ++ [(probe.2, save)] ∧
        heap s' = <[monitor := {| endpoint := endpoint m; cancel := cancel m;
                                  lastCheck := Timestamp probe.2 |}]> (heap s) ∧
        lastCheck <$> heap s' !! monitor = Some start ∧
        logger s' = logger probe.1 ++
          match save with
          | Some err => [log_error_saving (config.URL (endpoint m)) err]
          | None => []
          end ∧
        endpoints s' = endpoints s ∧ config s' = config s ∧
        scopes s' = scopes s ∧ goroutines s' = goroutines s ∧
        shutdownWg s' = shutdownWg s.
Proof.
  intros Hm probe.
  destruct (monitor_tick_fields quote ctx monitor m start get since save s Hm)
    as (s' & Hsel & Hst & Hh & Hl & He & Hc & Hs & Hg & Hw).
  exists s'. split; [done|]. split; [done|]. split; [done|].
  split; [|done]. rewrite Hh.
  rewrite list_lookup_insert_eq by (by eapply lookup_lt_Some).
  simpl. by rewrite performHealthCheck_Timestamp.
Qed.

Lemma tick_saves_check_and_continues_witness :
  ∃ s', monitorEndpoint_select (λ u, u) 2%nat 0%nat
          (monitor_ticker_C 5 (get_resp 503) 7000000 (Some "disk full"))
          (Start main_ctx (NewService
             (example_monitor_config [example_endpoint "A" "u" "" 60])
             main_scopes)).1
          = Some (s', loop_continue) ∧
        lastCheck <$> heap s' !! 0%nat = Some 5.
Proof.
  edestruct (tick_saves_check_and_continues (λ u, u) 2%nat 0%nat
               {| endpoint := example_endpoint "A" "u" "" 60;
                  cancel := 2%nat; lastCheck := 0 |}
               5 (get_resp 503) 7000000 (Some "disk full")
               (Start main_ctx (NewService
                  (example_monitor_config [example_endpoint "A" "u" "" 60])
                  main_scopes)).1)
    as (s' & Hsel & _ & _ & Hlast & _).
  - reflexivity.
  - exists s'. split; [exact Hsel | exact Hlast].
Defined.

(** ** Starting cannot fail *)

(** C10. [startEndpoint] returns [nil] on every input; therefore [Start]
    returns [nil] for every configuration, and [reloadConfig] returns
    [nil] whenever the configuration fetch has succeeded. *)
Theorem startEndpoint_never_fails :
  (∀ ctx endpoint s, (startEndpoint ctx endpoint s).2 = None) ∧
  (∀ ctx s, (Start ctx s).2 = None) ∧
  (∀ cfg s, (reloadConfig (inl cfg) s).2 = None).
Proof.
  split; [done|]. split.
  - intros ctx s. unfold Start.
    pose proof (Start_range_nil ctx (config.Endpoints (config s)) s) as H.
    destruct (Start_range _ _ _) as [s' [err|]]; [discriminate|done].
  - intros cfg s. unfold reloadConfig.
    pose proof (reload_range_nil
                  (config.Endpoints (config.Monitor cfg))
                  (Printf log_reloading s, ∅)) as H.
    destruct (reload_range _ _) as [[s' new] [err|]]; [discriminate|done].
Qed.

(** ** Reconciliation, one endpoint at a time *)

Lemma started_startEndpoint (parent : context.Context) (e : config.Endpoint)
    (s : Service) :
  started parent e s (startEndpoint parent e s).1.
Proof. by repeat split. Qed.

Lemma endpointConfigEqual_decide (a b : config.Endpoint) :
  endpointConfigEqual a b = bool_decide (same_compared_fields a b).
Proof.
  apply eq_true_iff_eq. rewrite endpointConfigEqual_spec, bool_decide_eq_true.
  done.
Qed.

(** C4, as amended. In the loop of [reloadConfig], for an enabled endpoint
    of the new configuration whose URL has a monitor in the map: if the
    URL, interval, timeout, name and tags are those of the monitor's
    snapshot, the state is left as it is, whatever the description; if one
    of them differs, the monitor's cancel function is called and
    [startEndpoint] runs with the new endpoint on the background scope,
    which gives a new scope, a new monitor and a new polling goroutine.
    For a URL with no monitor in the map, [startEndpoint] runs and no
    cancel function is called. In all cases [newEndpoints] receives the
    map's entry for the URL. *)
Theorem reload_endpoint_restarts_on_compared_fields (e : config.Endpoint)
    (s : Service) (new : gmap string ptr) :
  config.Enabled e = true →
  let r := reload_endpoint e (s, new) in
  r.2 = None ∧
  r.1.2 = <[config.URL e := default 0%nat (endpoints r.1.1 !! config.URL e)]>
            new ∧
  match endpoints s !! config.URL e with
  | Some p =>
      match heap s !! p with
      | Some m =>
          if decide (same_compared_fields (endpoint m) e) then r.1.1 = s
          else
            started context.Background e
              (set_scopes (context.cancel (scopes s) (cancel m)) s) r.1.1 ∧
            logger r.1.1 = logger s ++ [log_updating (config.URL e)]
      | None => r.1.1 = s
      end
  | None =>
      started context.Background e s r.1.1 ∧
      logger r.1.1 = logger s ++ [log_adding (config.URL e)]
  end.
Proof.
  intros Hen r. subst r. rewrite reload_endpoint_eq, Hen.
  destruct (endpoints s !! config.URL e) as [p|] eqn:Hp.
  - destruct (heap s !! p) as [m|] eqn:Hm.
    + rewrite endpointConfigEqual_decide.
      destruct (decide (same_compared_fields (endpoint m) e)) as [Heq|Hne].
      * rewrite bool_decide_eq_true_2 by done. cbn [negb fst snd].
        by rewrite Hp.
      * rewrite bool_decide_eq_false_2 by done. cbn [negb fst snd].
        rewrite startEndpoint_lookup. split; [done|]. split.
        { destruct (call_cancel_fields p (Printf (log_updating (config.URL e)) s))
            as (_ & -> & _). done. }
        unfold call_cancel. simpl. rewrite Hm. by repeat split.
    + cbn [fst snd]. by rewrite Hp.
  - cbn [fst snd]. rewrite startEndpoint_lookup. by repeat split.
Qed.

Lemma reload_endpoint_restarts_on_compared_fields_witness :
  let e := example_endpoint "A" "u" "" 30 in
  context.flag (scopes (reload_endpoint e (started_one, ∅)).1.1) 2%nat = true ∧
  heap (reload_endpoint e (started_one, ∅)).1.1 !! 1%nat
    = Some {| endpoint := e; cancel := 3%nat; lastCheck := 0 |}.
Proof.
  intros e.
  destruct (reload_endpoint_restarts_on_compared_fields e started_one ∅
              eq_refl) as (_ & _ & H).
  change (endpoints started_one !! config.URL e) with (Some 0%nat) in H.
  change (heap started_one !! 0%nat)
    with (Some {| endpoint := example_endpoint "A" "u" "" 60;
                  cancel := 2%nat; lastCheck := 0 |}) in H.
  cbv beta iota in H.
  destruct (decide (same_compared_fields (example_endpoint "A" "u" "" 60) e))
    as [(_ & Habs & _)|_]; [discriminate|].
  destruct H as ((Hs & Hh & _) & _). rewrite Hs, Hh. split; reflexivity.
Defined.

(** The claim C4 as it is written fails: an endpoint that differs from the
    snapshot of its running monitor in the description only is not
    restarted. The scope of the monitor is not cancelled, and no monitor
    and no goroutine is added. *)
Lemma description_change_does_not_restart :
  let old := example_endpoint "A" "u" "" 60 in
  let new := example_endpoint "A" "u" "a new description" 60 in
  let s' := (reloadConfig (inl (example_config [new])) started_one).1 in
  endpoint <$> heap started_one !! 0%nat = Some old ∧
  endpoints started_one !! "u" = Some 0%nat ∧
  config.Description old ≠ config.Description new ∧
  context.Done (scopes s') 2%nat = false ∧
  scopes s' = scopes started_one ∧ heap s' = heap started_one ∧
  goroutines s' = goroutines started_one ∧
  endpoints s' !! "u" = Some 0%nat.
Proof. vm_compute. repeat split; congruence. Qed.

(** ** The service map and the live polling loops *)

(** C6, as amended. In every state reached from [Start] by turns of the
    service's goroutines (ticks, reconciliations, returns), while the
    caller has not cancelled the root scope: the keys of the map are
    exactly the URLs of the enabled endpoints of the stored configuration,
    and every entry of the map has exactly one live polling loop bound to
    its monitor. The locked section of [Shutdown] keeps the keys and the
    configuration, and cancels the scope of every entry: after it, no
    entry of the map has a live polling loop. *)
Theorem map_tracks_enabled_endpoints (quote : string → string)
    (t : context.table) (root : context.Context) (s : Service) :
  usable_root t root = true → reachable quote t root s →
  dom (endpoints s) = enabled_urls (config s) ∧
  (∀ u p, endpoints s !! u = Some p → live_loops s p = 1%nat) ∧
  let s' := Shutdown_cancel s in
  dom (endpoints s') = enabled_urls (config s') ∧
  (∀ u p, endpoints s' !! u = Some p → live_loops s' p = 0%nat).
Proof.
  intros Hroot Hreach.
  destruct (steady_reachable quote t root s Hroot Hreach)
    as (Hwf & Hsv & Hdom).
  split; [done|]. split.
  { intros u p Hp. by apply (live_loops_one t s u p), Hsv. }
  destruct (Shutdown_cancel_spec t s Hwf)
    as (Hwf' & Hh & He & _ & Hc & _ & _ & Hflag).
  cbv zeta. rewrite He, Hc. split; [done|]. intros u p Hp.
  destruct (Hsv u p Hp) as (m & Hm & _).
  apply (live_loops_zero t _ p m); [done|by rewrite Hh|].
  apply Hflag. right. by exists u, p, m.
Qed.

Lemma map_tracks_enabled_endpoints_witness :
  dom (endpoints started_one) = enabled_urls (config started_one) ∧
  live_loops started_one 0%nat = 1%nat ∧
  live_loops (Shutdown_cancel started_one) 0%nat = 0%nat.
Proof.
  destruct (map_tracks_enabled_endpoints (λ u, u) main_scopes main_ctx
              started_one eq_refl
              (reachable_Start (λ u, u) main_scopes main_ctx
                 (example_monitor_config [example_endpoint "A" "u" "" 60])))
    as (Hdom & Hlive & _ & Hdead).
  split; [exact Hdom|]. split.
  - apply (Hlive "u"). reflexivity.
  - apply (Hdead "u"). reflexivity.
Defined.

(** The claim C6 as it is written fails after [Shutdown]: the entry of the
    map is still there, its scope is cancelled and its polling loop is no
    longer live; once that loop has seen the cancellation and returned,
    the entry has no polling loop at all. *)
Lemma Shutdown_keeps_entries_of_cancelled_loops :
  let s := Shutdown_cancel started_one in
  dom (endpoints s) = enabled_urls (config s) ∧
  endpoints s !! "u" = Some 0%nat ∧
  goroutines s = [go_monitorEndpoint 2%nat 0%nat; go_watchConfig main_ctx] ∧
  context.Done (scopes s) 2%nat = true ∧
  live_loops s 0%nat ≠ 1%nat ∧
  ∃ s', run (λ u, u) 0 (ev_monitor monitor_ctx_Done) s = Some s' ∧
        endpoints s' !! "u" = Some 0%nat ∧
        goroutines s' = [go_watchConfig main_ctx] ∧
        live_loops s' 0%nat = 0%nat.
Proof.
  cbv zeta. do 5 (split; [by vm_compute|]).
  eexists. split; [reflexivity|]. by vm_compute.
Qed.

(** ** What [Shutdown] and the root scope reach *)

(** The scopes of the caller's table are done in the service's table
    exactly when they are in the caller's: the service never calls their
    cancel functions. *)
Lemma Done_caller_scope (t : context.table) (s : Service)
    (c : context.Context) :
  well_formed t s → closed_table t = true → (c < length t)%nat →
  context.Done (scopes s) c = context.Done t c.
Proof.
  intros Hwf Hcl Hc. unfold context.Done, context.flag at 1 3.
  unfold context.ancestors_of. rewrite (wf_prefix _ _ Hwf c Hc).
  f_equal. apply existsb_flag_ext. intros a Ha. unfold context.flag.
  rewrite (wf_prefix _ _ Hwf); [done|].
  pose proof (closed_table_ancestors t c Hcl) as Hall.
  unfold context.ancestors_of in Hall. rewrite Forall_forall in Hall.
  by apply Hall.
Qed.

(** [Shutdown] cancels no scope of the caller; in particular it does not
    cancel the scope that was passed to [Start], on which the watch loop
    waits. *)
Lemma Shutdown_cancel_keeps_caller_scopes (quote : string → string)
    (t : context.table) (root : context.Context) (s : Service)
    (c : context.Context) :
  usable_root t root = true → reachable quote t root s →
  (c < length t)%nat →
  context.Done (scopes (Shutdown_cancel s)) c = context.Done t c.
Proof.
  intros Hroot Hreach Hc.
  destruct (steady_reachable quote t root s Hroot Hreach) as (Hwf & _).
  destruct (Shutdown_cancel_spec t s Hwf) as (Hwf' & _).
  apply Done_caller_scope; [done| |done].
  unfold usable_root in Hroot. by apply andb_true_iff in Hroot as [_ ?].
Qed.

(** C2, at the failing input. [main] starts the service on [ctx] and, on a
    signal, calls [Shutdown] while [ctx] is not cancelled. The locked
    section cancels the monitor's scope and leaves [ctx], the scope of the
    watch loop, as it was: the case [<-ctx.Done()] of [watchConfig] is not
    ready. After the polling loop has returned, the watch loop still holds
    one unit of the worker counter, so [s.shutdownWg.Wait()] does not
    return and [done] is never closed. *)
Theorem Shutdown_leaves_watchConfig_running :
  let s := Shutdown_cancel started_one in
  goroutines s = [go_monitorEndpoint 2%nat 0%nat; go_watchConfig main_ctx] ∧
  context.Done (scopes s) 2%nat = true ∧
  context.Done (scopes s) main_ctx = false ∧
  watchConfig_select main_ctx watch_ctx_Done s = None ∧
  ∃ s', run (λ u, u) 0 (ev_monitor monitor_ctx_Done) s = Some s' ∧
        goroutines s' = [go_watchConfig main_ctx] ∧
        shutdownWg s' = 1 ∧
        watchConfig_select main_ctx watch_ctx_Done s' = None ∧
        Shutdown_Wait s' false = false.
Proof.
  cbv zeta. split; [reflexivity|]. split; [reflexivity|].
  split; [reflexivity|]. split; [reflexivity|].
  eexists. split; [reflexivity|]. by vm_compute.
Qed.

(** Every monitor that [Start] launches has a scope derived from the scope
    passed to [Start]. *)
Lemma Start_range_ancestors (root : context.Context)
    (l : list config.Endpoint) (s : Service) :
  let s' := (Start_range root l s).1 in
  ∃ gs, goroutines s' = goroutines s ++ gs ∧
        (length (scopes s) ≤ length (scopes s'))%nat ∧
        (∀ c, (c < length (scopes s))%nat → scopes s' !! c = scopes s !! c) ∧
        ∀ c p, go_monitorEndpoint c p ∈ gs →
               root ∈ context.ancestors_of (scopes s') c.
Proof.
  revert s. induction l as [|e l IH]; intros s.
  { exists []. simpl. rewrite app_nil_r. split_and!; try done.
    intros c p Hin. by apply elem_of_nil in Hin. }
  rewrite Start_range_cons. destruct (config.Enabled e); [|apply IH].
  cbv iota.
  destruct (startEndpoint_fields root e s) as (Hs & _ & _ & Hg & _).
  destruct (IH (startEndpoint root e s).1) as (gs & G1 & G2 & G3 & G4).
  cbv zeta. exists (go_monitorEndpoint (length (scopes s)) (length (heap s))
                      :: gs).
  rewrite Hs, length_app in G2. cbn [length] in G2.
  split; [by rewrite G1, Hg, <- app_assoc|]. split; [lia|]. split.
  - intros c Hc. rewrite G3 by (rewrite Hs, length_app; cbn [length]; lia).
    rewrite Hs. by apply lookup_app_l.
  - intros c p Hin. apply elem_of_cons in Hin as [[= -> ->]|Hin]; [|eauto].
    unfold context.ancestors_of.
    rewrite G3 by (rewrite Hs, length_app; cbn [length]; lia).
    rewrite Hs, lookup_app_r, Nat.sub_diag by lia. simpl. by left.
Qed.

Lemma Start_monitors_derive_from_root (root : context.Context)
    (cfg : config.MonitorConfig) (t : context.table) (c : context.Context)
    (p : ptr) :
  (root < length t)%nat →
  let s := (Start root (NewService cfg t)).1 in
  go_monitorEndpoint c p ∈ goroutines s →
  context.Done (context.cancel (scopes s) root) c = true.
Proof.
  intros Hroot. unfold Start. change (config (NewService cfg t)) with cfg.
  pose proof (Start_range_ancestors root (config.Endpoints cfg)
                (NewService cfg t)) as Hloop.
  pose proof (Start_range_nil root (config.Endpoints cfg)
                (NewService cfg t)) as Hnil.
  destruct (Start_range _ _ _) as [s1 [err|]]; [discriminate|].
  simpl in Hloop. destruct Hloop as (gs & H1 & H2 & H3 & H4).
  cbn [fst]. simpl. rewrite H1. simpl. intros Hin.
  apply elem_of_app in Hin as [Hin|Hin];
    [|by apply list_elem_of_singleton in Hin].
  apply Done_cancel_ancestor; [lia|]. by apply (H4 c p).
Qed.

(** C3, at the failing input. After a reconciliation that adds an
    endpoint, the scope of the new monitor derives from the background
    scope only. Cancelling the scope passed to [Start] makes the monitor
    launched by [Start] done, but not the one launched by the
    reconciliation: the case [<-ctx.Done()] of its polling loop is not
    ready, and the loop goes on probing. *)
Theorem reconciled_monitor_ignores_root :
  let s := reconciled_two in
  let cancelled := set_scopes (context.cancel (scopes s) main_ctx) s in
  endpoints s !! "v" = Some 1%nat ∧
  goroutines s = [go_monitorEndpoint 2%nat 0%nat; go_watchConfig main_ctx;
                  go_monitorEndpoint 3%nat 1%nat] ∧
  context.ancestors_of (scopes s) 2%nat = [main_ctx; context.Background] ∧
  context.ancestors_of (scopes s) 3%nat = [context.Background] ∧
  context.Done (scopes cancelled) main_ctx = true ∧
  context.Done (scopes cancelled) 2%nat = true ∧
  context.Done (scopes cancelled) 3%nat = false ∧
  monitorEndpoint_select (λ u, u) 3%nat 1%nat monitor_ctx_Done cancelled
    = None.
Proof. cbv zeta. by vm_compute. Qed.

(** ** Reconciling with the same configuration *)

Lemma set_endpoints_id (s : Service) : set_endpoints (endpoints s) s = s.
Proof. by destruct s. Qed.

Lemma reload_range_unchanged (l : list config.Endpoint) (s : Service)
    (new : gmap string ptr) :
  (∀ e, e ∈ l → config.Enabled e = true →
        ∃ p m, endpoints s !! config.URL e = Some p ∧
               heap s !! p = Some m ∧
               endpointConfigEqual (endpoint m) e = true) →
  new ⊆ endpoints s →
  ∃ new', reload_range l (s, new) = (s, new', None) ∧
          new' ⊆ endpoints s ∧
          dom new' =
            dom new ∪
            list_to_set
              (config.URL <$> filter (λ e, config.Enabled e = true) l).
Proof.
  revert new. induction l as [|e l IH]; intros new Hall Hsub.
  { exists new. simpl. split_and!; try done; set_solver. }
  cbn [reload_range]. rewrite reload_endpoint_eq.
  destruct (config.Enabled e) eqn:Hen.
  - destruct (Hall e) as (p & m & Hp & Hm & Heq); [by left|done|].
    rewrite Hp, Hm, Heq. cbn [negb].
    destruct (IH (<[config.URL e := p]> new)) as (new' & H1 & H2 & H3).
    + intros e' He'. apply Hall. by right.
    + by apply insert_subseteq_l.
    + exists new'. split; [done|]. split; [done|].
      rewrite H3, dom_insert_L, filter_cons_True by done. set_solver.
  - destruct (IH new) as (new' & H1 & H2 & H3).
    + intros e' He'. apply Hall. by right.
    + done.
    + exists new'. split; [done|]. split; [done|].
      by rewrite H3, filter_cons_False by (by rewrite Hen).
Qed.

Lemma reload_remove_unchanged (new : gmap string ptr)
    (l : list (string * ptr)) (s : Service) :
  (∀ e, e ∈ l → is_Some (new !! e.1)) →
  foldr (reload_remove new) s l = s.
Proof.
  induction l as [|e l IH]; intros Hall; [done|]. simpl.
  rewrite IH by (intros e' He'; apply Hall; by right).
  unfold reload_remove. by destruct (Hall e) as [p ->]; [left|].
Qed.

(** When every enabled endpoint of the fetched configuration has, under
    its URL, a monitor whose snapshot agrees with it on the compared
    fields, and the map has no other entry, [reloadConfig] calls no cancel
    function and starts nothing: it logs one line and stores the fetched
    configuration. *)
Lemma reloadConfig_unchanged (cfg : config.Config) (s : Service) :
  (∀ e, e ∈ config.Endpoints (config.Monitor cfg) →
        config.Enabled e = true →
        ∃ p m, endpoints s !! config.URL e = Some p ∧
               heap s !! p = Some m ∧
               endpointConfigEqual (endpoint m) e = true) →
  dom (endpoints s) ⊆ enabled_urls (config.Monitor cfg) →
  reloadConfig (inl cfg) s
    = (set_config (config.Monitor cfg) (Printf log_reloading s), None).
Proof.
  intros Hall Hdom. unfold reloadConfig.
  set (s0 := Printf log_reloading s).
  destruct (reload_range_unchanged
              (config.Endpoints (config.Monitor cfg)) s0 ∅)
    as (new & -> & Hsub & Hnew); [done|apply map_empty_subseteq|].
  assert (Heq : new = endpoints s0).
  { apply subseteq_dom_eq; [done|]. rewrite Hnew. unfold enabled_urls in Hdom.
    simpl. set_solver. }
  rewrite reload_remove_unchanged.
  - by rewrite Heq, set_endpoints_id.
  - intros [u p] Hin. apply elem_of_map_to_list in Hin. rewrite Heq. by exists p.
Qed.

(** ** The snapshots agree with a configuration of distinct URLs *)

Lemma endpointConfigEqual_refl (e : config.Endpoint) :
  endpointConfigEqual e e = true.
Proof. by apply endpointConfigEqual_spec. Qed.

Lemma not_elem_of_urls_cons (e : config.Endpoint) (l : list config.Endpoint)
    (u : string) :
  u ∉ config.URL <$> filter (λ e, config.Enabled e = true) (e :: l) →
  (config.Enabled e = true → u ≠ config.URL e) ∧
  u ∉ config.URL <$> filter (λ e, config.Enabled e = true) l.
Proof.
  destruct (config.Enabled e) eqn:Hen.
  - rewrite filter_cons_True by done. rewrite fmap_cons, not_elem_of_cons.
    tauto.
  - rewrite filter_cons_False by (by rewrite Hen). split; [done|tauto].
Qed.

Lemma Start_range_frame (root : context.Context) (l : list config.Endpoint)
    (s : Service) :
  let s' := (Start_range root l s).1 in
  (∀ u, u ∉ config.URL <$> filter (λ e, config.Enabled e = true) l →
        endpoints s' !! u = endpoints s !! u) ∧
  (∀ p m, heap s !! p = Some m → heap s' !! p = Some m).
Proof.
  revert s. induction l as [|e l IH]; intros s; [done|].
  rewrite Start_range_cons. cbv zeta.
  destruct (config.Enabled e) eqn:Hen.
  - destruct (IH (startEndpoint root e s).1) as [H1 H2].
    destruct (startEndpoint_fields root e s) as (_ & Hh & He & _).
    split.
    + intros u Hu. apply not_elem_of_urls_cons in Hu as [Hne Hu].
      rewrite H1, He by done. apply lookup_insert_ne. intros ?. by apply Hne.
    + intros p m Hm. apply H2. rewrite Hh. by apply lookup_app_l_Some.
  - destruct (IH s) as [H1 H2]. split; [|done].
    intros u Hu. apply not_elem_of_urls_cons in Hu as [_ Hu]. by apply H1.
Qed.

Lemma Start_range_agrees (root : context.Context) (l : list config.Endpoint)
    (s : Service) :
  NoDup (config.URL <$> filter (λ e, config.Enabled e = true) l) →
  let s' := (Start_range root l s).1 in
  ∀ e, e ∈ l → config.Enabled e = true → agrees (endpoints s') (heap s') e.
Proof.
  revert s. induction l as [|e l IH]; intros s Hnd s' e0 Hin Hen0.
  { by apply elem_of_nil in Hin. }
  subst s'. rewrite Start_range_cons.
  destruct (config.Enabled e) eqn:Hen.
  - rewrite filter_cons_True, fmap_cons in Hnd by done.
    apply NoDup_cons in Hnd as [Hnot Hnd].
    apply elem_of_cons in Hin as [->|Hin]; [|by apply IH].
    destruct (Start_range_frame root l (startEndpoint root e s).1)
      as [H1 H2].
    exists (length (heap s)), {| endpoint := e; cancel := length (scopes s);
                                 lastCheck := 0 |}.
    rewrite H1 by done. split; [apply startEndpoint_lookup|]. split.
    + apply H2.
      destruct (startEndpoint_fields root e s) as (_ & -> & _).
      by rewrite lookup_app_r, Nat.sub_diag by lia.
    + apply endpointConfigEqual_refl.
  - rewrite filter_cons_False in Hnd by (by rewrite Hen).
    apply elem_of_cons in Hin as [->|Hin]; [congruence|by apply IH].
Qed.

Lemma reload_endpoint_frame (e : config.Endpoint) (s : Service)
    (new : gmap string ptr) :
  let r := reload_endpoint e (s, new) in
  (∀ u, (config.Enabled e = true → u ≠ config.URL e) →
        r.1.2 !! u = new !! u) ∧
  (∀ p m, heap s !! p = Some m → heap r.1.1 !! p = Some m).
Proof.
  cbv zeta. rewrite reload_endpoint_eq.
  destruct (config.Enabled e); [|done].
  destruct (endpoints s !! config.URL e) as [p|].
  - destruct (match heap s !! p with
              | Some m => negb (endpointConfigEqual (endpoint m) e)
              | None => false
              end); cbn [fst snd].
    + split; [intros u Hu; by rewrite lookup_insert_ne by (intros ?; by apply Hu)|].
      intros q m Hm.
      destruct (startEndpoint_fields context.Background e
                  (call_cancel p (Printf (log_updating (config.URL e)) s)))
        as (_ & -> & _).
      destruct (call_cancel_fields p (Printf (log_updating (config.URL e)) s))
        as (_ & -> & _). by apply lookup_app_l_Some.
    + split; [|done].
      intros u Hu; by rewrite lookup_insert_ne by (intros ?; by apply Hu).
  - cbn [fst snd].
    split; [intros u Hu; by rewrite lookup_insert_ne by (intros ?; by apply Hu)|].
    intros q m Hm.
    destruct (startEndpoint_fields context.Background e
                (Printf (log_adding (config.URL e)) s)) as (_ & -> & _).
    by apply lookup_app_l_Some.
Qed.

Lemma reload_range_frame (l : list config.Endpoint) (s : Service)
    (new : gmap string ptr) :
  let r := reload_range l (s, new) in
  (∀ u, u ∉ config.URL <$> filter (λ e, config.Enabled e = true) l →
        r.1.2 !! u = new !! u) ∧
  (∀ p m, heap s !! p = Some m → heap r.1.1 !! p = Some m).
Proof.
  revert s new. induction l as [|e l IH]; intros s new; [done|].
  cbn [reload_range].
  pose proof (reload_endpoint_frame e s new) as [F1 F2].
  pose proof (reload_endpoint_nil e (s, new)) as Hnil.
  destruct (reload_endpoint e (s, new)) as [[s1 new1] [err|]];
    [discriminate|]. cbn [fst snd] in F1, F2.
  destruct (IH s1 new1) as [H1 H2]. split.
  - intros u Hu. apply not_elem_of_urls_cons in Hu as [Hne Hu].
    rewrite H1 by done. by apply F1.
  - intros p m Hm. by apply H2, F2.
Qed.

Lemma reload_endpoint_agrees (e : config.Endpoint) (s : Service)
    (new : gmap string ptr) :
  all_served s → config.Enabled e = true →
  let r := reload_endpoint e (s, new) in
  agrees r.1.2 (heap r.1.1) e.
Proof.
  intros Hsv Hen. cbv zeta. rewrite reload_endpoint_eq, Hen.
  destruct (endpoints s !! config.URL e) as [p|] eqn:Hp.
  - destruct (Hsv _ _ Hp) as (m & Hm & _). rewrite Hm.
    destruct (endpointConfigEqual (endpoint m) e) eqn:Heq; cbn [negb fst snd].
    + exists p, m. by rewrite lookup_insert_eq.
    + eexists _, _. rewrite lookup_insert_eq. split; [done|].
      destruct (startEndpoint_fields context.Background e
                  (call_cancel p (Printf (log_updating (config.URL e)) s)))
        as (_ & -> & _).
      destruct (call_cancel_fields p (Printf (log_updating (config.URL e)) s))
        as (_ & -> & _). simpl.
      rewrite lookup_app_r, Nat.sub_diag by lia. split; [done|].
      apply endpointConfigEqual_refl.
  - cbn [fst snd]. eexists _, _. rewrite lookup_insert_eq. split; [done|].
    destruct (startEndpoint_fields context.Background e
                (Printf (log_adding (config.URL e)) s)) as (_ & -> & _).
    simpl. rewrite lookup_app_r, Nat.sub_diag by lia. split; [done|].
    apply endpointConfigEqual_refl.
Qed.

Lemma reload_range_agrees (t : context.table) (l : list config.Endpoint)
    (s : Service) (new : gmap string ptr) :
  usable_parent t context.Background →
  well_formed t s → all_served s → new ⊆ endpoints s →
  NoDup (config.URL <$> filter (λ e, config.Enabled e = true) l) →
  let r := reload_range l (s, new) in
  ∀ e, e ∈ l → config.Enabled e = true → agrees r.1.2 (heap r.1.1) e.
Proof.
  intros Hbg. revert s new.
  induction l as [|e l IH]; intros s new Hwf Hsv Hsub Hnd r e0 Hin Hen0.
  { by apply elem_of_nil in Hin. }
  subst r. cbn [reload_range].
  pose proof (reload_endpoint_inv t e s new Hbg Hwf Hsv Hsub) as Hinv.
  pose proof (reload_endpoint_agrees e s new Hsv) as Hag.
  pose proof (reload_endpoint_nil e (s, new)) as Hnil.
  destruct (reload_endpoint e (s, new)) as [[s1 new1] [err|]];
    [discriminate|]. cbn [fst snd] in Hinv, Hag.
  destruct Hinv as (H1 & H2 & H3 & _).
  destruct (config.Enabled e) eqn:Hen.
  - rewrite filter_cons_True, fmap_cons in Hnd by done.
    apply NoDup_cons in Hnd as [Hnot Hnd].
    apply elem_of_cons in Hin as [->|Hin]; [|by apply IH].
    destruct (Hag eq_refl) as (p & m & Hp & Hm & Heq).
    destruct (reload_range_frame l s1 new1) as [F1 F2].
    exists p, m. rewrite F1 by done. split; [done|]. split; [by apply F2|done].
  - rewrite filter_cons_False in Hnd by (by rewrite Hen).
    apply elem_of_cons in Hin as [->|Hin]; [congruence|by apply IH].
Qed.

Lemma config_agrees_reloadConfig (t : context.table)
    (onReload : config.Config + string) (s : Service) :
  usable_parent t context.Background →
  well_formed t s → all_served s → config_agrees s →
  config_agrees (reloadConfig onReload s).1.
Proof.
  intros Hbg Hwf Hsv Hag. unfold reloadConfig.
  set (s0 := Printf log_reloading s).
  destruct onReload as [cfg|err]; [|done].
  assert (Hwf0 : well_formed t s0) by by apply (well_formed_ext t s).
  assert (Hsv0 : all_served s0).
  { intros u p Hp. apply (served_ext s); try done. by apply Hsv. }
  pose proof (reload_range_agrees t (config.Endpoints (config.Monitor cfg))
                s0 ∅ Hbg Hwf0 Hsv0 (map_empty_subseteq _)) as Hloop.
  pose proof (reload_range_inv t (config.Endpoints (config.Monitor cfg))
                s0 ∅ Hbg Hwf0 Hsv0 (map_empty_subseteq _)) as (H1 & _).
  pose proof (reload_range_nil (config.Endpoints (config.Monitor cfg))
                (s0, ∅)) as Hnil.
  destruct (reload_range _ _) as [[s1 new] [err|]]; [discriminate|].
  cbn [fst snd] in *.
  destruct (reload_remove_fold t new (map_to_list (endpoints s1)) s1 H1)
    as (_ & Hh & _).
  intros Hnd e Hin Hen. simpl in *. rewrite Hh. by apply Hloop.
Qed.

Lemma config_agrees_reachable (quote : string → string) (t : context.table)
    (root : context.Context) (s : Service) :
  usable_root t root = true → reachable quote t root s → config_agrees s.
Proof.
  intros Hroot Hreach. induction Hreach as [cfg|s s' i e Hreach IH Hrun].
  - intros Hnd e Hin Hen. unfold Start in *.
    change (config (NewService cfg t)) with cfg in *.
    pose proof (Start_range_agrees root (config.Endpoints cfg)
                  (NewService cfg t)) as Hag.
    pose proof (Start_range_inv t root (config.Endpoints cfg)
                  (NewService cfg t)) as Hinv.
    pose proof (Start_range_nil root (config.Endpoints cfg)
                  (NewService cfg t)) as Hnil.
    destruct (Start_range _ _ _) as [s1 [err|]]; [discriminate|].
    cbn [fst snd] in *. simpl in *.
    destruct Hinv as (_ & _ & Hc & _).
    { by apply usable_root_parent in Hroot as [? _]. }
    { split; simpl.
      - lia.
      - done.
      - intros p m Hm. by rewrite lookup_nil in Hm.
      - intros p m Hm. by rewrite lookup_nil in Hm.
      - intros c p Hp. by apply elem_of_nil in Hp.
      - constructor. }
    { by intros u p Hp. }
    rewrite Hc in Hnd, Hin. by apply Hag.
  - destruct (steady_reachable quote t root s Hroot Hreach) as (Hwf & Hsv & _).
    apply usable_root_parent in Hroot as [_ Hbg].
    revert Hrun. unfold run.
    destruct (goroutines s !! i) as [[ctx monitor|ctx]|] eqn:Hi; [| |done].
    + destruct e as [c|c]; [|done].
      destruct (heap s !! monitor) as [m|] eqn:Hm;
        [|unfold monitorEndpoint_select; by rewrite Hm].
      destruct c as [|start get since save].
      * unfold monitorEndpoint_select. rewrite Hm.
        destruct (context.Done (scopes s) ctx); [|done]. by intros [= <-].
      * destruct (monitor_tick_fields quote ctx monitor m start get since
                    save s Hm) as (s1 & -> & _ & Hh & _ & He & Hc & _).
        intros [= <-] Hnd e Hin Hen. rewrite Hc in Hnd, Hin.
        destruct (IH Hnd e Hin Hen) as (p & mon & Hp & Hmon & Heq).
        rewrite He, Hh. destruct (decide (monitor = p)) as [->|Hne].
        -- eexists p, _. split; [done|]. split.
           ++ apply list_lookup_insert_eq. by eapply lookup_lt_Some.
           ++ simpl. congruence.
        -- exists p, mon. by rewrite list_lookup_insert_ne.
    + destruct e as [c|c]; [done|]. destruct c as [|onReload]; simpl.
      * destruct (context.Done (scopes s) ctx); [|done]. by intros [= <-].
      * pose proof (config_agrees_reloadConfig t onReload s Hbg Hwf Hsv IH)
          as Hag.
        destruct (reloadConfig onReload s) as [s1 [err|]];
          by intros [= <-].
Qed.

(** In a state reached from [Start] whose stored configuration has
    distinct URLs for its enabled endpoints, reconciling with that same
    configuration cancels nothing and starts nothing. *)
Lemma same_config_distinct_urls_idempotent (quote : string → string)
    (t : context.table) (root : context.Context) (s : Service)
    (cfg : config.Config) :
  usable_root t root = true → reachable quote t root s →
  config.Monitor cfg = config s → distinct_urls (config s) →
  reloadConfig (inl cfg) s = (Printf log_reloading s, None).
Proof.
  intros Hroot Hreach Hcfg Hnd.
  pose proof (config_agrees_reachable quote t root s Hroot Hreach Hnd) as Hag.
  destruct (steady_reachable quote t root s Hroot Hreach) as (_ & _ & Hdom).
  rewrite reloadConfig_unchanged.
  - rewrite Hcfg. by destruct s.
  - rewrite Hcfg. intros e Hin Hen. by apply Hag.
  - by rewrite Hcfg, Hdom.
Qed.

(** C5, at the failing input. The service runs a configuration in which
    two enabled endpoints share a URL and differ in name; the map holds
    the monitor of the second. Reconciling with the same configuration
    cancels that monitor, starts a monitor for the first endpoint, cancels
    it in turn and starts a monitor for the second: two restarts, not
    none. *)
Theorem same_config_restarts_shared_url :
  let s := started_shared_url in
  let s' := (reloadConfig (inl (example_config shared_url_config)) s).1 in
  config s = config.Monitor (example_config shared_url_config) ∧
  config s' = config s ∧
  endpoints s !! "u" = Some 1%nat ∧ endpoints s' !! "u" = Some 3%nat ∧
  goroutines s' = goroutines s ++
    [go_monitorEndpoint 4%nat 2%nat; go_monitorEndpoint 5%nat 3%nat] ∧
  context.flag (scopes s) 3%nat = false ∧
  context.flag (scopes s') 3%nat = true ∧
  context.flag (scopes s') 4%nat = true ∧
  shutdownWg s' = shutdownWg s + 2 ∧
  logger s' = logger s ++ [log_reloading; log_updating "u"; log_updating "u"].
Proof. cbv zeta. by vm_compute. Qed.

(** ** The bounded drain *)

Lemma Shutdown_run_zero (sm : ShutdownManager) (evs : list drain_event) :
  wg sm = 0 → Shutdown_run sm evs = Some (true, sm).
Proof. intros H. destruct evs; simpl; by rewrite H. Qed.

Lemma Shutdown_run_true (sm : ShutdownManager) (evs : list drain_event) :
  0 ≤ wg sm →
  (∃ sm', Shutdown_run sm evs = Some (true, sm')) ↔
  (∃ pre post, evs = pre ++ post ∧ Forall (eq worker_Done) pre ∧
               Z.of_nat (length pre) = wg sm).
Proof.
  revert sm. induction evs as [|ev evs IH]; intros sm Hwg.
  - simpl. destruct (Z.eqb_spec (wg sm) 0) as [Hz|Hz].
    + split; [|by eauto]. intros _. exists [], []. by rewrite Hz.
    + split; [by intros [? ?]|]. intros (pre & post & Heq & _ & Hlen).
      symmetry in Heq. apply app_eq_nil in Heq as [-> _]. simpl in Hlen. lia.
  - destruct (decide (wg sm = 0)) as [Hz|Hz].
    { rewrite Shutdown_run_zero by done. split; [|by eauto].
      intros _. exists [], (ev :: evs). by rewrite Hz. }
    simpl. rewrite (proj2 (Z.eqb_neq _ _) Hz).
    destruct ev.
    + rewrite IH by (simpl; lia). simpl. split.
      * intros (pre & post & -> & Hall & Hlen).
        exists (worker_Done :: pre), post. split; [done|].
        split; [by constructor|]. simpl length. lia.
      * intros ([|x pre] & post & Heq & Hall & Hlen); [simpl in Hlen; lia|].
        simplify_eq/=. exists pre, post. split; [done|].
        split; [by inversion Hall|]. lia.
    + split; [by intros [? ?]|].
      intros ([|x pre] & post & Heq & Hall & Hlen); [simpl in Hlen; lia|].
      simplify_eq/=. by inversion Hall.
Qed.

Lemma Shutdown_run_false (sm : ShutdownManager) (evs : list drain_event) :
  0 ≤ wg sm →
  (∃ sm', Shutdown_run sm evs = Some (false, sm')) ↔
  (∃ pre post, evs = pre ++ timer_fires :: post ∧
               Forall (eq worker_Done) pre ∧
               Z.of_nat (length pre) < wg sm).
Proof.
  revert sm. induction evs as [|ev evs IH]; intros sm Hwg.
  - simpl. split.
    + destruct (wg sm =? 0); by intros [? ?].
    + intros (pre & post & Heq & _). by destruct pre.
  - destruct (decide (wg sm = 0)) as [Hz|Hz].
    { rewrite Shutdown_run_zero by done. split; [by intros [? ?]|].
      intros (pre & post & _ & _ & Hlen). lia. }
    simpl. rewrite (proj2 (Z.eqb_neq _ _) Hz).
    destruct ev.
    + rewrite IH by (simpl; lia). simpl. split.
      * intros (pre & post & -> & Hall & Hlen).
        exists (worker_Done :: pre), post. split; [done|].
        split; [by constructor|]. simpl length. lia.
      * intros ([|x pre] & post & Heq & Hall & Hlen); [done|].
        simplify_eq/=. exists pre, post. split; [done|].
        split; [by inversion Hall|]. lia.
    + split; [|by eauto]. intros _. exists [], evs.
      split; [done|]. split; [constructor|]. simpl. lia.
Qed.

Lemma Shutdown_run_counter (sm sm' : ShutdownManager)
    (evs : list drain_event) (b : bool) :
  0 ≤ wg sm → Shutdown_run sm evs = Some (b, sm') →
  timeout sm' = timeout sm ∧ 0 ≤ wg sm' ≤ wg sm ∧
  (b = true ↔ wg sm' = 0).
Proof.
  revert sm. induction evs as [|ev evs IH]; intros sm Hwg; simpl.
  - destruct (Z.eqb_spec (wg sm) 0) as [Hz|Hz]; [|done].
    intros [= <- <-]. split; [done|]. split; [lia|done].
  - destruct (Z.eqb_spec (wg sm) 0) as [Hz|Hz].
    { intros [= <- <-]. split; [done|]. split; [lia|done]. }
    destruct ev.
    + intros Hrun. apply IH in Hrun; [|simpl; lia]. simpl in Hrun.
      split; [tauto|]. split; [lia|tauto].
    + intros [= <- <-]. split; [done|]. split; [lia|]. split; [done|lia].
Qed.

Lemma Shutdown_run_blocked (sm : ShutdownManager) (evs : list drain_event) :
  Shutdown_run sm evs = None → timer_fires ∉ evs.
Proof.
  revert sm. induction evs as [|ev evs IH]; intros sm; simpl.
  - intros _. apply not_elem_of_nil.
  - destruct (wg sm =? 0); [done|]. destruct ev; [|done].
    intros Hrun Hin. apply elem_of_cons in Hin as [?|Hin]; [done|].
    by apply (IH _ Hrun).
Qed.

(** C9. [ShutdownManager.Shutdown], run against the events that follow
    the call, returns [true] exactly when the workers' [Done] calls bring
    the counter to zero before the timer fires, and [false] exactly when
    the timer fires while workers are still outstanding; in that case the
    outstanding workers are still counted (nothing has made them stop).
    It is blocked only as long as the timer has not fired. The [select]
    of [Service.Shutdown] returns [nil] only once [done] is closed, which
    the helper goroutine does only when the worker counter is zero, and as
    soon as the caller's context is done its second case is ready and
    returns the error of the context. *)
Theorem drain_returns_by_deadline (sm : ShutdownManager)
    (evs : list drain_event) :
  0 ≤ wg sm →
  ((∃ sm', Shutdown_run sm evs = Some (true, sm')) ↔
   (∃ pre post, evs = pre ++ post ∧ Forall (eq worker_Done) pre ∧
                Z.of_nat (length pre) = wg sm)) ∧
  ((∃ sm', Shutdown_run sm evs = Some (false, sm')) ↔
   (∃ pre post, evs = pre ++ timer_fires :: post ∧
                Forall (eq worker_Done) pre ∧
                Z.of_nat (length pre) < wg sm)) ∧
  (∀ sm', Shutdown_run sm evs = Some (false, sm') → 0 < wg sm') ∧
  (timer_fires ∈ evs → is_Some (Shutdown_run sm evs)) ∧
  (∀ (ctx : context.Context) (c : Shutdown_case) (done : bool)
     (s : Service),
     match Shutdown_select ctx c done s with
     | Some return_nil => c = case_done ∧ done = true
     | Some return_ctx_Err =>
         c = case_ctx_Done ∧ context.Done (scopes s) ctx = true
     | None =>
         match c with
         | case_done => done = false
         | case_ctx_Done => context.Done (scopes s) ctx = false
         end
     end) ∧
  (∀ s : Service, Shutdown_Wait s false = true ↔ shutdownWg s = 0).
Proof.
  intros Hwg. split; [by apply Shutdown_run_true|].
  split; [by apply Shutdown_run_false|]. split; [|split; [|split]].
  - intros sm' Hrun. apply Shutdown_run_counter in Hrun; [|done].
    destruct Hrun as (_ & Hle & Hiff).
    destruct (decide (wg sm' = 0)) as [Hz|Hz]; [|lia].
    apply Hiff in Hz. done.
  - intros Hin. destruct (Shutdown_run sm evs) eqn:Hrun; [by eexists|].
    by apply Shutdown_run_blocked in Hrun.
  - intros ctx c done s. destruct c; simpl.
    + by destruct done.
    + by destruct (context.Done (scopes s) ctx).
  - intros s. unfold Shutdown_Wait. simpl. apply Z.eqb_eq.
Qed.

Lemma drain_returns_by_deadline_witness :
  (∃ sm', Shutdown_run (Add 2 NewShutdownManager)
            [worker_Done; timer_fires; worker_Done] = Some (false, sm')) ∧
  (∃ sm', Shutdown_run (Add 2 NewShutdownManager)
            [worker_Done; worker_Done; timer_fires] = Some (true, sm')).
Proof.
  split.
  - apply (drain_returns_by_deadline (Add 2 NewShutdownManager)
             [worker_Done; timer_fires; worker_Done]); [simpl; lia|].
    exists [worker_Done], [worker_Done]. split; [reflexivity|].
    split; [repeat constructor|simpl; lia].
  - apply (drain_returns_by_deadline (Add 2 NewShutdownManager)
             [worker_Done; worker_Done; timer_fires]); [simpl; lia|].
    exists [worker_Done; worker_Done], [timer_fires]. split; [reflexivity|].
    split; [repeat constructor|simpl; lia].
Defined.
